(** * The gesture-driven animation engine of [ThreeScene.tsx]

    A shallow embedding of the mutable state that the React component
    [ThreeScene] keeps in its refs and closures, of the two methods it
    exposes ([updateHandInteraction], [addMemory]), of the per-frame
    callback [animate], of the detection loop of [App.tsx] that drives
    [updateHandInteraction], and of [HandTrackingService] which that loop
    queries.

    Numbers.  A JavaScript [number] is modelled as a real number and the
    arithmetic is exact: binary64 rounding, and the rounding to binary32
    of a store into a [Float32Array], are not modelled.  [Math.sin],
    [Math.cos] and [Math.sqrt] are the real functions [sin], [cos] and
    [sqrt]; [Math.PI] is [PI].  The module [Binary64] evaluates one step
    of the hand smoothing and the mapping of the palm to the target on
    binary64 numbers, to show the size of what is left out.

    Outside world.  [clock.getElapsedTime()] is an input of the callback
    that reads it, each [Math.random()] draw is an input of the code that
    draws it, and the outcome of [TextureLoader.load] is an event. *)

From Stdlib Require Import PrimFloat.
From stdpp Require Import list.
From Stdlib Require Import Reals Lra Lia.

Open Scope R_scope.

#[global] Instance R_inhabited : Inhabited R := populate 0.

(** ** THREE.Vector3 *)

Record Vector3 : Type := mkVector3 { vx : R; vy : R; vz : R }.

Module Vec.

(** [new THREE.Vector3(0, 0, 0)] *)
Definition zero : Vector3 := mkVector3 0 0 0.

(** [a.lerp(b, alpha)]: [this.x += (v.x - this.x) * alpha], and the same
    for [y] and [z]. *)
Definition lerp (a b : Vector3) (alpha : R) : Vector3 :=
  mkVector3 (vx a + (vx b - vx a) * alpha)
            (vy a + (vy b - vy a) * alpha)
            (vz a + (vz b - vz a) * alpha).

(** [a.distanceToSquared(b)] and [a.distanceTo(b)] *)
Definition distanceToSquared (a b : Vector3) : R :=
  let dx := vx a - vx b in
  let dy := vy a - vy b in
  let dz := vz a - vz b in
  dx * dx + dy * dy + dz * dz.

Definition distanceTo (a b : Vector3) : R := sqrt (distanceToSquared a b).

End Vec.

(** One coordinate of [lerp] on the numbers JavaScript really has, IEEE
    754 binary64, to measure what the real-number model leaves out. *)
Module Binary64.

Definition lerp1 (a b alpha : PrimFloat.float) : PrimFloat.float :=
  PrimFloat.add a (PrimFloat.mul (PrimFloat.sub b a) alpha).

(** The literals [0.12], [1.2], [1.8] and [1.7999999999999998], each
    rounded to the nearest binary64 as a JavaScript parser does. *)
#[warnings="-inexact-float"]
Definition alpha : PrimFloat.float := 0.12%float.

#[warnings="-inexact-float"]
Definition onePointTwo : PrimFloat.float := 1.2%float.

#[warnings="-inexact-float"]
Definition onePointEight : PrimFloat.float := 1.8%float.

#[warnings="-inexact-float"]
Definition justBelowOnePointEight : PrimFloat.float := 1.7999999999999998%float.

(** The first coordinate of the target as [updateHandInteraction]
    computes it, [(x - 0.5) * 60]. *)
Definition targetX (x : PrimFloat.float) : PrimFloat.float :=
  PrimFloat.mul (PrimFloat.sub x 0.5%float) 60%float.

(** The first coordinate of the target as the specification writes it,
    [x * 60 - 30]. *)
Definition specTargetX (x : PrimFloat.float) : PrimFloat.float :=
  PrimFloat.sub (PrimFloat.mul x 60%float) 30%float.

(** The literals [0.7] and [11.999999999999996], rounded to binary64. *)
#[warnings="-inexact-float"]
Definition pointSeven : PrimFloat.float := 0.7%float.

#[warnings="-inexact-float"]
Definition justBelowTwelve : PrimFloat.float := 11.999999999999996%float.

End Binary64.

(** ** Typed arrays

    A [Float32Array] is a list of numbers of fixed length.  A write is
    stdpp's [<[i:=x]>], which like the typed array ignores an index out of
    range; a read is [a !!! i].  Every index the code uses is in range. *)

Abbreviation Float32Array := (list R) (only parsing).

(** [new Float32Array(n)] *)
Definition newFloat32Array (n : nat) : Float32Array := replicate n 0.

(** The three consecutive cells of point [i] of a position attribute. *)
Definition slot (a : Float32Array) (i : nat) : Vector3 :=
  mkVector3 (a !!! (i * 3)%nat) (a !!! (i * 3 + 1)%nat) (a !!! (i * 3 + 2)%nat).

(** ** Memory artifacts *)

Definition Texture : Type := nat.

(** One child of [memoriesGroup]: the [THREE.Group] built by the load
    callback of [addMemory].  [matRefs] holds the opacity of each material
    of [userData.matRefs] (the photo, then its border); [lookAtTarget] is
    the argument given to [group.lookAt]. *)
Record MemoryGroup : Type := mkMemoryGroup {
  map_ : Texture;
  position : Vector3;
  lookAtTarget : Vector3;
  birth : R;
  matRefs : list R
}.

(** ** The state of the component *)

Definition vCount : nat := 4000.
Definition tCount : nat := 60.

Record Scene : Type := mkScene {
  targetHandPos : Vector3;
  currentHandPos : Vector3;
  isPinchingRef : bool;
  pinchFactor : R;
  rotationX : R;            (* mainGroup.rotation.x *)
  rotationY : R;            (* mainGroup.rotation.y *)
  vPos : Float32Array;      (* vGeo.attributes.position.array *)
  vMeta : Float32Array;     (* per particle: r, speed *)
  vMatOpacity : R;          (* vMat.opacity *)
  tArray : Float32Array;    (* tGeo.attributes.position.array *)
  memories : list MemoryGroup;   (* memoriesGroup.children *)
  starRotationY : R;
  starScale : R
}.

(** ** Initialisation (the body of [useEffect]) *)

(** One iteration of the loop that fills [vPos] and [vMeta].  [rnd k] is
    the result of the [k]-th call of [Math.random()]; iteration [i] makes
    the calls [4i .. 4i+3], in the order [r], [theta], height, speed. *)
Definition initVortexBody (rnd : nat -> R)
    (acc : Float32Array * Float32Array) (i : nat) : Float32Array * Float32Array :=
  let r := 8 + rnd (4 * i)%nat * 25 in
  let theta := rnd (4 * i + 1)%nat * PI * 2 in
  let p0 := <[(i * 3)%nat := cos theta * r]> (fst acc) in
  let p1 := <[(i * 3 + 1)%nat := (rnd (4 * i + 2)%nat - 0.2) * 45]> p0 in
  let p2 := <[(i * 3 + 2)%nat := sin theta * r]> p1 in
  let m0 := <[(i * 2)%nat := r]> (snd acc) in
  let m1 := <[(i * 2 + 1)%nat := 0.5 + rnd (4 * i + 3)%nat * 1.5]> m0 in
  (p2, m1).

Definition initVortex (rnd : nat -> R) : Float32Array * Float32Array :=
  fold_left (initVortexBody rnd) (seq 0 vCount)
            (newFloat32Array (vCount * 3), newFloat32Array (vCount * 2)).

Definition initScene (rnd : nat -> R) : Scene :=
  {| targetHandPos := Vec.zero;
     currentHandPos := Vec.zero;
     isPinchingRef := false;
     pinchFactor := 0;
     rotationX := 0;
     rotationY := 0;
     vPos := fst (initVortex rnd);
     vMeta := snd (initVortex rnd);
     vMatOpacity := 0.5;
     tArray := newFloat32Array (tCount * 3);
     memories := [];
     starRotationY := 0;
     starScale := 1 |}.

(** ** [updateHandInteraction] *)

Definition updateHandInteraction (x y : R) (isPinching : bool) (s : Scene) : Scene :=
  let targetRX := (y - 0.5) * 0.25 in
  let targetRY := (x - 0.5) * 0.5 in
  {| targetHandPos := mkVector3 ((x - 0.5) * 60) ((0.5 - y) * 45) 15;
     currentHandPos := currentHandPos s;
     isPinchingRef := isPinching;
     pinchFactor := pinchFactor s;
     rotationX := rotationX s + (targetRX - rotationX s) * 0.04;
     rotationY := rotationY s + (targetRY - rotationY s) * 0.04;
     vPos := vPos s;
     vMeta := vMeta s;
     vMatOpacity := vMatOpacity s;
     tArray := tArray s;
     memories := memories s;
     starRotationY := starRotationY s;
     starScale := starScale s |}.

(** ** [addMemory]

    The call itself only starts a texture load.  [onTextureLoaded] is the
    callback given to [loader.load]; it runs when, and only when, the load
    succeeds.  [now] is the reading of [clock.getElapsedTime()] inside the
    callback and [u1], [u2], [u3] are its three [Math.random()] draws. *)

Definition newMemoryGroup (texture : Texture) (now u1 u2 u3 : R) : MemoryGroup :=
  let angle := u1 * PI * 2 in
  let radius := 15 + u2 * 8 in
  let height := u3 * 30 - 5 in
  {| map_ := texture;
     position := mkVector3 (cos angle * radius) height (sin angle * radius);
     lookAtTarget := mkVector3 0 height 0;
     birth := now;
     matRefs := [0; 0] |}.

Definition setMemories (ms : list MemoryGroup) (s : Scene) : Scene :=
  {| targetHandPos := targetHandPos s;
     currentHandPos := currentHandPos s;
     isPinchingRef := isPinchingRef s;
     pinchFactor := pinchFactor s;
     rotationX := rotationX s;
     rotationY := rotationY s;
     vPos := vPos s;
     vMeta := vMeta s;
     vMatOpacity := vMatOpacity s;
     tArray := tArray s;
     memories := ms;
     starRotationY := starRotationY s;
     starScale := starScale s |}.

(** [memoriesGroupRef.current.add(group)] appends to [children]. *)
Definition onTextureLoaded (texture : Texture) (now u1 u2 u3 : R) (s : Scene) : Scene :=
  setMemories (memories s ++ [newMemoryGroup texture now u1 u2 u3]) s.

(** What [TextureLoader.load] eventually reports. *)
Inductive LoadOutcome : Type :=
| LoadSuccess (texture : Texture) (now u1 u2 u3 : R)
| LoadError.

(** [addMemory] passes no [onError] callback: a failed load runs no code
    of the component. *)
Definition loadFinished (o : LoadOutcome) (s : Scene) : Scene :=
  match o with
  | LoadSuccess texture now u1 u2 u3 => onTextureLoaded texture now u1 u2 u3 s
  | LoadError => s
  end.

(** ** [animate]: one display frame *)

(** Step 2, the body of the loop over the particles. *)
Definition vortexBody (time pf : R) (meta : Float32Array)
    (pos : Float32Array) (i : nat) : Float32Array :=
  let idx := (i * 3)%nat in
  let r := meta !!! (i * 2)%nat in
  let speed := meta !!! (i * 2 + 1)%nat in
  let angle := time * 0.2 * speed in
  let baseAngle := INR i / INR vCount * PI * 2 + angle in
  let currentR := r * (1 + pf * 0.3) in
  let pos1 := <[idx := cos baseAngle * currentR]> pos in
  let pos2 := <[(idx + 2)%nat := sin baseAngle * currentR]> pos1 in
  <[(idx + 1)%nat := pos2 !!! (idx + 1)%nat + cos (time + INR i) * 0.01]> pos2.

(** [for (let i = 0; i < vCount; i++)] *)
Definition vortexLoop (time pf : R) (meta pos : Float32Array) : Float32Array :=
  fold_left (vortexBody time pf meta) (seq 0 vCount) pos.

(** Step 3, the body of the loop that shifts the trail: slot [i] receives
    slot [i - 1]. *)
Definition trailBody (i : nat) (a : Float32Array) : Float32Array :=
  let a1 := <[(i * 3)%nat := a !!! ((i - 1) * 3)%nat]> a in
  let a2 := <[(i * 3 + 1)%nat := a1 !!! ((i - 1) * 3 + 1)%nat]> a1 in
  <[(i * 3 + 2)%nat := a2 !!! ((i - 1) * 3 + 2)%nat]> a2.

(** [for (let i = start; i > 0; i--)]: the bodies for [start], [start - 1],
    ..., [1], in this order. *)
Fixpoint trailLoop (start : nat) (a : Float32Array) : Float32Array :=
  match start with
  | O => a
  | S j => trailLoop j (trailBody (S j) a)
  end.

(** The three writes of the head of the trail. *)
Definition trailHead (p : Vector3) (a : Float32Array) : Float32Array :=
  <[2%nat := vz p]> (<[1%nat := vy p]> (<[0%nat := vx p]> a)).

(** The whole trail update of one frame, given the smoothed position. *)
Definition trailPush (p : Vector3) (a : Float32Array) : Float32Array :=
  trailHead p (trailLoop (tCount - 1) a).

(** Step 4, the callback of [children.forEach]. *)
Definition updateMemory (time : R) (group : MemoryGroup) : MemoryGroup :=
  let age := time - birth group in
  let mats :=
    if Rlt_dec age 1.5
    then List.map (fun _ : R => age / 1.5) (matRefs group)
    else matRefs group in
  let p := position group in
  {| map_ := map_ group;
     position := mkVector3 (vx p) (vy p + sin (time + vx p) * 0.015) (vz p);
     lookAtTarget := lookAtTarget group;
     birth := birth group;
     matRefs := mats |}.

(** [time] is the reading of [clock.getElapsedTime()] at the top of the
    callback.  [composer.render()] draws and changes nothing here. *)
Definition animate (time : R) (s : Scene) : Scene :=
  let targetPinch := if isPinchingRef s then 1 else 0 in
  let pf := pinchFactor s + (targetPinch - pinchFactor s) * 0.1 in
  let cur := Vec.lerp (currentHandPos s) (targetHandPos s) 0.12 in
  {| targetHandPos := targetHandPos s;
     currentHandPos := cur;
     isPinchingRef := isPinchingRef s;
     pinchFactor := pf;
     rotationX := rotationX s;
     rotationY := rotationY s;
     vPos := vortexLoop time pf (vMeta s) (vPos s);
     vMeta := vMeta s;
     vMatOpacity := 0.4 + pf * 0.5;
     tArray := trailPush cur (tArray s);
     memories := List.map (updateMemory time) (memories s);
     starRotationY := starRotationY s + 0.02;
     starScale := 1 + sin (time * 3) * 0.1 |}.

(** ** The detection loop of [App.tsx] *)

Record HandLandmark : Type := mkHandLandmark { lx : R; ly : R; lz : R }.

(** What [handTrackingService.detect()] returns: [null] while the
    landmarker or the video is not ready, [{detected: false}] when no hand
    is seen, and the landmarks of the first hand otherwise. *)
Inductive DetectResult : Type :=
| NotReady
| NoHand
| Hand (landmarks : list HandLandmark).

(** The scene after one run of [detectLoop], for a mounted scene
    ([sceneRef.current] is set).  [None] is the [TypeError] of reading a
    landmark that the array does not have; it is raised before
    [updateHandInteraction] is reached.  The flag shown in the overlay
    ([setHandDetected]) is not part of the scene. *)
Definition detectLoop (result : DetectResult) (s : Scene) : option Scene :=
  match result with
  | Hand landmarks =>
      thumbTip ← landmarks !! 4%nat;
      indexTip ← landmarks !! 8%nat;
      palmCenter ← landmarks !! 9%nat;
      let distance :=
        sqrt ((lx thumbTip - lx indexTip) ^ 2 + (ly thumbTip - ly indexTip) ^ 2) in
      let isPinching := if Rlt_dec distance 0.055 then true else false in
      Some (updateHandInteraction (lx palmCenter) (ly palmCenter) isPinching s)
  | NotReady | NoHand => Some s
  end.

(** ** Runs

    Everything that can happen to the scene after it is mounted.  A
    detection that raises leaves the scene as it was. *)
Inductive event : Type :=
| Animate (time : R)
| UpdateHandInteraction (x y : R) (isPinching : bool)
| Detect (result : DetectResult)
| AddMemory (url : nat)
| LoadFinished (o : LoadOutcome).

Definition step (s : Scene) (e : event) : Scene :=
  match e with
  | Animate time => animate time s
  | UpdateHandInteraction x y isPinching => updateHandInteraction x y isPinching s
  | Detect result => default s (detectLoop result s)
  | AddMemory _ => s
  | LoadFinished o => loadFinished o s
  end.

Definition run (es : list event) (s : Scene) : Scene := fold_left step es s.

(** The completion of a successful image load. *)
Definition isLoadSuccess (e : event) : bool :=
  match e with
  | LoadFinished (LoadSuccess _ _ _ _ _) => true
  | _ => false
  end.

(** An event through which no hand position reaches the scene. *)
Definition handless (e : event) : bool :=
  match e with
  | UpdateHandInteraction _ _ _ => false
  | Detect (Hand _) => false
  | _ => true
  end.

(** The number of display frames of a run. *)
Fixpoint frames (es : list event) : nat :=
  match es with
  | [] => O
  | Animate _ :: es' => S (frames es')
  | _ :: es' => frames es'
  end.

(** ** Histories *)

(** The trail after the positions [ps] have been pushed into it, one per
    frame, oldest first. *)
Definition feed (ps : list Vector3) (a : Float32Array) : Float32Array :=
  fold_left (fun a p => trailPush p a) ps a.

(** The smoothed hand position after each frame of a run of frames. *)
Fixpoint smoothedPositions (times : list R) (s : Scene) : list Vector3 :=
  match times with
  | [] => []
  | t :: times' =>
      currentHandPos (animate t s) :: smoothedPositions times' (animate t s)
  end.

(** [a'] lies where [a] lay, with the gap to [b] scaled by [k] in every
    coordinate. *)
Definition scaledGap (k : R) (a a' b : Vector3) : Prop :=
  vx a' - vx b = k * (vx a - vx b) /\
  vy a' - vy b = k * (vy a - vy b) /\
  vz a' - vz b = k * (vz a - vz b).

(** The hand state of a scene that no hand position has reached yet:
    target, smoothed position and every slot of the trail at the origin. *)
Definition atOrigin (s : Scene) : Prop :=
  targetHandPos s = Vec.zero /\
  currentHandPos s = Vec.zero /\
  length (tArray s) = (tCount * 3)%nat /\
  forall i, (i < tCount)%nat -> slot (tArray s) i = Vec.zero.

(** Where one frame puts particle [i], read off the loop body: the point
    at [baseAngle] on the circle of radius [currentR], at the height the
    particle had plus the drift of this frame. *)
Definition particle (time pf : R) (meta pos : Float32Array) (i : nat) : Vector3 :=
  let r := meta !!! (i * 2)%nat in
  let speed := meta !!! (i * 2 + 1)%nat in
  let baseAngle := INR i / INR vCount * PI * 2 + time * 0.2 * speed in
  let currentR := r * (1 + pf * 0.3) in
  mkVector3 (cos baseAngle * currentR)
            (vy (slot pos i) + cos (time + INR i) * 0.01)
            (sin baseAngle * currentR).

(** Every material of every artifact of the scene is short of full
    opacity. *)
Definition belowFullOpacity (s : Scene) : Prop :=
  Forall (fun g => Forall (fun o => o < 1) (matRefs g)) (memories s).

(** ** [HandTrackingService]

    The two private fields of the service, as far as [detect] looks at
    them: whether each is still [null]. *)
Record HandTrackingService : Type := mkHandTrackingService {
  hasLandmarker : bool;
  hasVideo : bool
}.

(** [new HandTrackingService()] *)
Definition newService : HandTrackingService :=
  {| hasLandmarker := false; hasVideo := false |}.

(** [initialize(videoElement)]: the video is stored first; the landmarker
    is stored only if the two awaited downloads succeed ([created]),
    otherwise the promise rejects and the field keeps its value. *)
Definition initialize (created : bool) (svc : HandTrackingService) : HandTrackingService :=
  {| hasLandmarker := if created then true else hasLandmarker svc;
     hasVideo := true |}.

(** [detect()].  [readyState] is [this.video.readyState] at the call, and
    [landmarks] is the field [results.landmarks] of what [detectForVideo]
    returns (absent, or one list of landmarks per hand). *)
Definition detect (svc : HandTrackingService) (readyState : nat)
    (landmarks : option (list (list HandLandmark))) : DetectResult :=
  if negb (hasLandmarker svc) || negb (hasVideo svc) || (readyState <? 2)%nat
  then NotReady
  else match landmarks with
       | Some (hand :: _) => Hand hand
       | Some [] | None => NoHand
       end.

(** ** Descriptions used in the statements *)

(** Every draw of [Math.random()] lies in [0,1). *)
Definition unitDraws (rnd : nat -> R) : Prop := forall k, 0 <= rnd k < 1.

(** What the initialisation loop gives particle [i]. *)
Definition baseRadius (rnd : nat -> R) (i : nat) : R := 8 + rnd (4 * i)%nat * 25.

Definition angularSpeed (rnd : nat -> R) (i : nat) : R :=
  0.5 + rnd (4 * i + 3)%nat * 1.5.

Definition initialParticle (rnd : nat -> R) (i : nat) : Vector3 :=
  let theta := rnd (4 * i + 1)%nat * PI * 2 in
  mkVector3 (cos theta * baseRadius rnd i)
            ((rnd (4 * i + 2)%nat - 0.2) * 45)
            (sin theta * baseRadius rnd i).

(** A hand report whose palm coordinates are normalised to [0,1]. *)
Definition normalized (e : event) : Prop :=
  match e with
  | UpdateHandInteraction x y _ => 0 <= x <= 1 /\ 0 <= y <= 1
  | Detect (Hand landmarks) =>
      match landmarks !! 9%nat with
      | Some palm => 0 <= lx palm <= 1 /\ 0 <= ly palm <= 1
      | None => True
      end
  | _ => True
  end.

(** The part of scene space that normalised palm coordinates map into,
    extended to the origin where the smoothed position starts. *)
Definition inBox (p : Vector3) : Prop :=
  -30 <= vx p <= 30 /\ -22.5 <= vy p <= 22.5 /\ 0 <= vz p <= 15.

Definition handBounded (s : Scene) : Prop :=
  inBox (targetHandPos s) /\
  inBox (currentHandPos s) /\
  length (tArray s) = (tCount * 3)%nat /\
  (forall i, (i < tCount)%nat -> inBox (slot (tArray s) i)) /\
  -0.125 <= rotationX s <= 0.125 /\
  -0.25 <= rotationY s <= 0.25.

(** The number of successful image loads of a run. *)
Fixpoint loads (es : list event) : nat :=
  match es with
  | [] => O
  | e :: es' => ((if isLoadSuccess e then 1 else 0) + loads es')%nat
  end.

(** [g'] is the artifact [g] some [n] frames later: same photo, birth
    time and orientation, same place but for a vertical drift of at most
    0.015 per frame. *)
Definition tracks (n : nat) (g g' : MemoryGroup) : Prop :=
  map_ g' = map_ g /\
  birth g' = birth g /\
  lookAtTarget g' = lookAtTarget g /\
  length (matRefs g') = length (matRefs g) /\
  vx (position g') = vx (position g) /\
  vz (position g') = vz (position g) /\
  Rabs (vy (position g') - vy (position g)) <= 0.015 * INR n.

(** At elapsed time [t], every opacity of the artifact is between 0 and
    what the fade has reached, and short of 1. *)
Definition fading (t : R) (g : MemoryGroup) : Prop :=
  Forall (fun o => 0 <= o <= (t - birth g) / 1.5 /\ o < 1) (matRefs g).

(** A hand of 21 landmarks with the thumb tip at [(tx, ty)], the index
    tip at [(ix, iy)] and every other landmark at [(px, py)]. *)
Definition handWith (tx ty ix iy px py : R) : list HandLandmark :=
  replicate 4 (mkHandLandmark px py 0) ++
  [mkHandLandmark tx ty 0] ++
  replicate 3 (mkHandLandmark px py 0) ++
  [mkHandLandmark ix iy 0] ++
  replicate 12 (mkHandLandmark px py 0).

(** The number of direct hand reports of a run. *)
Fixpoint reports (es : list event) : nat :=
  match es with
  | [] => O
  | UpdateHandInteraction _ _ _ :: es' => S (reports es')
  | _ :: es' => reports es'
  end.

(** An event that is no hand report, or the direct report of the palm
    position [(x, y)]. *)
Definition reportsOnly (x y : R) (e : event) : Prop :=
  handless e = true \/ exists p, e = UpdateHandInteraction x y p.

(** ** Sample inputs *)

(** Every [Math.random()] draw is 0. *)
Definition zeroDraws : nat -> R := fun _ => 0.

(** A freshly mounted scene whose only hand report so far puts the target
    at (10, 0, 15). *)
Definition aimedScene : Scene :=
  updateHandInteraction (2 / 3) 0.5 false (initScene zeroDraws).

(** Sixty distinct positions, (0,0,0), (1,0,0), ..., (59,0,0). *)
Definition sixtyPositions : list Vector3 :=
  List.map (fun k => mkVector3 (INR k) 0 0) (seq 0 60).

(** A detection whose 21 landmarks all sit at the centre of the image. *)
Definition centredHand : list HandLandmark :=
  replicate 21 (mkHandLandmark 0.5 0.5 0).

(** The artifact of an image that finished loading at elapsed time 15 s,
    with the draws 1/2 (angle [PI]), 0 (radius 15) and 1/6 (height 0): it
    stands at (-15, 0, 0). *)
Definition freshMemory : MemoryGroup := newMemoryGroup 1%nat 15 (1 / 2) 0 (1 / 6).

(** [n] frames of a 60 Hz display. *)
Definition framesAt60Hz (n : nat) : list event :=
  List.map (fun k => Animate (INR k / 60)) (seq 1 n).

(** ** Tactics *)

(** Reads of an array after writes: decide each write's index against the
    read's, arithmetic by [lia]. *)
Ltac array_reads :=
  repeat (rewrite list_lookup_total_insert; rewrite ?length_insert);
  repeat case_decide; try reflexivity; try (exfalso; lia).

(** * Properties *)

(** ** Runs *)

Lemma run_nil s : run [] s = s.
Proof. reflexivity. Qed.

Lemma run_cons e es s : run (e :: es) s = run es (step s e).
Proof. reflexivity. Qed.

Lemma run_snoc es e s : run (es ++ [e]) s = step (run es s) e.
Proof. unfold run. now rewrite fold_left_app. Qed.

(** Induction over the events of a run, last event first: a property
    that holds of [s] and is kept by every step holds after the run. *)
Lemma run_invariant (P : Scene -> Prop) :
  (forall s e, P s -> P (step s e)) ->
  forall es s, P s -> P (run es s).
Proof.
  intros Hstep es. induction es as [|e es IH]; intros s Hs; [exact Hs|].
  rewrite run_cons. apply IH, Hstep, Hs.
Qed.

Lemma detectLoop_unavailable result s :
  result = NotReady \/ result = NoHand -> detectLoop result s = Some s.
Proof. now intros [-> | ->]. Qed.

(** A detection with a hand either fails before touching the scene or
    performs exactly one [updateHandInteraction]. *)
Lemma detectLoop_hand landmarks s s' :
  detectLoop (Hand landmarks) s = Some s' ->
  exists palm isPinching,
    landmarks !! 9%nat = Some palm /\
    s' = updateHandInteraction (lx palm) (ly palm) isPinching s.
Proof.
  unfold detectLoop. intros H.
  destruct (landmarks !! 4%nat) as [thumb|]; [|discriminate].
  destruct (landmarks !! 8%nat) as [index|]; [|discriminate].
  destruct (landmarks !! 9%nat) as [palm|]; [|discriminate].
  simpl in H. injection H as <-. eauto.
Qed.

(** One run of the detection loop changes the scene by at most one
    [updateHandInteraction]. *)
Lemma step_detect result s :
  step s (Detect result) = s \/
  exists x y isPinching,
    step s (Detect result) = updateHandInteraction x y isPinching s.
Proof.
  cbn [step]. destruct result as [| |lm]; try (left; reflexivity).
  destruct (detectLoop (Hand lm) s) as [s'|] eqn:E; [|left; reflexivity].
  apply detectLoop_hand in E as (palm & p & _ & ->). right. cbn. eauto.
Qed.

(** What a step without a hand does to the scene: a frame is [animate],
    a finished load only touches [memories], anything else is nothing. *)
Lemma step_handless s e :
  handless e = true ->
  (exists time, e = Animate time) \/
  (forall es, frames (e :: es) = frames es) /\
  (exists ms, step s e = setMemories ms s).
Proof.
  destruct e as [time|x y p|[| |lm]|url|[tex now u1 u2 u3|]]; simpl; intros H;
    try discriminate.
  - left. eauto.
  - right. split; [reflexivity|]. exists (memories s). now destruct s.
  - right. split; [reflexivity|]. exists (memories s). now destruct s.
  - right. split; [reflexivity|]. exists (memories s). now destruct s.
  - right. split; [reflexivity|]. eauto.
  - right. split; [reflexivity|]. exists (memories s). now destruct s.
Qed.

(** ** Pinch smoothing *)

Lemma step_pinchFactor s e :
  pinchFactor (step s e) = pinchFactor s \/
  exists targetPinch, (targetPinch = 0 \/ targetPinch = 1) /\
    pinchFactor (step s e) = pinchFactor s + (targetPinch - pinchFactor s) * 0.1.
Proof.
  destruct e as [time|x y p|r|url|[tex now u1 u2 u3|]]; try (left; reflexivity).
  - right. cbn [step animate pinchFactor]. destruct (isPinchingRef s); eauto.
  - left. destruct (step_detect r s) as [-> | (x & y & p & ->)]; reflexivity.
Qed.

Lemma step_pinchFactor_unit s e :
  0 <= pinchFactor s <= 1 -> 0 <= pinchFactor (step s e) <= 1.
Proof.
  intros H. destruct (step_pinchFactor s e) as [-> | (t & [-> | ->] & ->)]; lra.
Qed.

Lemma animate_frames_pinching times s :
  isPinchingRef s = true ->
  isPinchingRef (run (List.map Animate times) s) = true /\
  pinchFactor (run (List.map Animate times) s)
    = 1 - (1 - pinchFactor s) * 0.9 ^ length times.
Proof.
  revert s. induction times as [|t times IH]; intros s Hp.
  - simpl. split; [exact Hp | lra].
  - simpl List.map. rewrite run_cons.
    destruct (IH (step s (Animate t))) as [IH1 IH2]; [exact Hp|].
    split; [exact IH1|]. rewrite IH2. simpl. rewrite Hp. lra.
Qed.

(** C3.  From a pinch factor in [0,1], every run of events keeps the
    pinch factor in [0,1] (each frame applies
    [pinchFactor += (targetPinch - pinchFactor) * 0.1] with [targetPinch]
    0 or 1); and while the pinch signal is latched, so that the target is
    constantly 1, after [n] frames the pinch factor is
    [1 - (1 - pinchFactor_0) * 0.9 ^ n]. *)
Theorem pinchFactor_unit_interval_and_closed_form :
  (forall es s, 0 <= pinchFactor s <= 1 -> 0 <= pinchFactor (run es s) <= 1) /\
  (forall times s, isPinchingRef s = true ->
     pinchFactor (run (List.map Animate times) s)
       = 1 - (1 - pinchFactor s) * 0.9 ^ length times).
Proof.
  split.
  - intros es s H.
    apply (run_invariant (fun s => 0 <= pinchFactor s <= 1)); [|exact H].
    intros s0 e. apply step_pinchFactor_unit.
  - intros times s Hp. now apply animate_frames_pinching.
Qed.

Lemma pinchFactor_unit_interval_and_closed_form_witness :
  0 <= pinchFactor
         (run [Animate 0; UpdateHandInteraction 0.5 0.5 true; Animate 0.016]
              (initScene zeroDraws)) <= 1 /\
  pinchFactor
    (run (List.map Animate [1; 2; 3])
         (updateHandInteraction 0.5 0.5 true (initScene zeroDraws)))
    = 1 - (1 - 0) * 0.9 ^ 3.
Proof.
  destruct pinchFactor_unit_interval_and_closed_form as [H1 H2].
  split.
  - apply H1. cbn [initScene pinchFactor]. lra.
  - apply (H2 [1; 2; 3] (updateHandInteraction 0.5 0.5 true (initScene zeroDraws))).
    reflexivity.
Defined.

(** ** Following the hand *)

Lemma lerp_scaledGap a b : scaledGap 0.88 a (Vec.lerp a b 0.12) b.
Proof. unfold scaledGap, Vec.lerp; simpl. repeat split; lra. Qed.

Lemma scaledGap_distanceTo k a a' b :
  0 <= k -> scaledGap k a a' b -> Vec.distanceTo a' b = k * Vec.distanceTo a b.
Proof.
  intros Hk (Hx & Hy & Hz). unfold Vec.distanceTo, Vec.distanceToSquared; cbv zeta.
  rewrite Hx, Hy, Hz.
  replace (k * (vx a - vx b) * (k * (vx a - vx b)) +
           k * (vy a - vy b) * (k * (vy a - vy b)) +
           k * (vz a - vz b) * (k * (vz a - vz b)))
    with (k * k * ((vx a - vx b) * (vx a - vx b) + (vy a - vy b) * (vy a - vy b) +
                   (vz a - vz b) * (vz a - vz b))) by ring.
  rewrite sqrt_mult.
  - now rewrite sqrt_square.
  - apply Rle_0_sqr.
  - repeat apply Rplus_le_le_0_compat; apply Rle_0_sqr.
Qed.

Lemma setMemories_hand ms s :
  targetHandPos (setMemories ms s) = targetHandPos s /\
  currentHandPos (setMemories ms s) = currentHandPos s /\
  tArray (setMemories ms s) = tArray s.
Proof. now repeat split. Qed.

(** Without a hand, the target stays and the smoothed position has closed
    a fixed fraction of its gap per frame. *)
Lemma handless_run_follow es : forall s,
  forallb handless es = true ->
  targetHandPos (run es s) = targetHandPos s /\
  scaledGap (0.88 ^ frames es) (currentHandPos s) (currentHandPos (run es s))
            (targetHandPos s).
Proof.
  induction es as [|e es IH]; intros s H.
  - split; [reflexivity|]. unfold scaledGap; simpl. repeat split; lra.
  - simpl in H. apply andb_prop in H as [He Hes].
    rewrite run_cons. destruct (IH (step s e) Hes) as [IHt IHg].
    destruct (step_handless s e He) as [(time & ->) | (Hf & ms & Hs)].
    + cbn [step] in *. split; [exact IHt|].
      cbn [animate targetHandPos currentHandPos] in IHg.
      destruct IHg as (Gx & Gy & Gz).
      destruct (lerp_scaledGap (currentHandPos s) (targetHandPos s)) as (Lx & Ly & Lz).
      unfold scaledGap. cbn [frames]. rewrite Gx, Gy, Gz, Lx, Ly, Lz.
      simpl pow. repeat split; ring.
    + rewrite Hs in IHt, IHg |- *. rewrite Hf.
      destruct (setMemories_hand ms s) as (Et & Ec & _).
      rewrite Et, Ec in IHg. rewrite Et in IHt. now split.
Qed.

Lemma animate_frames_handless times :
  forallb handless (List.map Animate times) = true /\
  frames (List.map Animate times) = length times.
Proof.
  induction times as [|t times [IH1 IH2]]; [easy|].
  simpl. now rewrite IH1, IH2.
Qed.

Lemma pow_088_le (n m : nat) : (m <= n)%nat -> 0.88 ^ n <= 0.88 ^ m.
Proof.
  intros H. replace n with (m + (n - m))%nat by lia. rewrite pow_add.
  assert (0 < 0.88 ^ m) by (apply pow_lt; lra).
  assert (0.88 ^ (n - m) <= 1 ^ (n - m)) by (apply pow_incr; lra).
  rewrite pow1 in *. nra.
Qed.

Lemma distance_origin_10_0_15 :
  18 <= Vec.distanceTo Vec.zero (mkVector3 10 0 15) < 18.03.
Proof.
  unfold Vec.distanceTo, Vec.distanceToSquared; simpl.
  replace ((0 - 10) * (0 - 10) + (0 - 0) * (0 - 0) + (0 - 15) * (0 - 15))
    with 325 by lra.
  split.
  - rewrite <- (sqrt_square 18) at 1 by lra. apply sqrt_le_1_alt. lra.
  - rewrite <- (sqrt_square 18.03) by lra. apply sqrt_lt_1_alt. lra.
Qed.

Lemma aimedScene_hand :
  currentHandPos aimedScene = Vec.zero /\
  targetHandPos aimedScene = mkVector3 10 0 15.
Proof.
  split; [reflexivity|]. unfold aimedScene; simpl. f_equal; lra.
Qed.

Lemma binary64_lerp_one_tick :
  Binary64.lerp1 0%float 10%float Binary64.alpha = Binary64.onePointTwo /\
  Binary64.lerp1 0%float 15%float Binary64.alpha = Binary64.justBelowOnePointEight /\
  Binary64.lerp1 0%float 15%float Binary64.alpha <> Binary64.onePointEight.
Proof.
  split; [vm_compute; reflexivity|]. split; [vm_compute; reflexivity|].
  intros H.
  assert (E : PrimFloat.eqb (Binary64.lerp1 0%float 15%float Binary64.alpha)
                            Binary64.onePointEight = true)
    by (rewrite H; reflexivity).
  vm_compute in E. discriminate E.
Qed.

(** The distance to the target (10,0,15) after [n] frames from the
    origin. *)
Lemma distance_after_frames times s :
  currentHandPos s = Vec.zero -> targetHandPos s = mkVector3 10 0 15 ->
  Vec.distanceTo (currentHandPos (run (List.map Animate times) s))
                 (mkVector3 10 0 15)
    = 0.88 ^ length times * Vec.distanceTo Vec.zero (mkVector3 10 0 15).
Proof.
  intros Hc Ht.
  destruct (animate_frames_handless times) as [Hh Hf].
  destruct (handless_run_follow _ s Hh) as [_ Hg].
  rewrite Hf, Hc, Ht in Hg.
  exact (scaledGap_distanceTo _ _ _ _ (pow_le 0.88 _ ltac:(lra)) Hg).
Qed.

(** C4, as amended.  Every frame moves the smoothed position 12% of the
    way to the target; from (0,0,0) with the target (10,0,15) one frame
    gives (1.2, 0, 1.8) in exact arithmetic (on binary64 numbers the same
    step gives 1.2 and 1.7999999999999998); and with that target the
    smoothed position is within 1e-3 of it after 77 frames and from then
    on, and not after 76 frames or fewer. *)
Theorem follow_lerp_12_percent :
  (forall time s,
     let c := currentHandPos s in
     let t := targetHandPos s in
     currentHandPos (animate time s)
       = mkVector3 (vx c + (vx t - vx c) * 0.12) (vy c + (vy t - vy c) * 0.12)
                   (vz c + (vz t - vz c) * 0.12)) /\
  (forall time s,
     currentHandPos s = Vec.zero -> targetHandPos s = mkVector3 10 0 15 ->
     currentHandPos (animate time s) = mkVector3 1.2 0 1.8) /\
  (Binary64.lerp1 0%float 10%float Binary64.alpha = Binary64.onePointTwo /\
   Binary64.lerp1 0%float 15%float Binary64.alpha = Binary64.justBelowOnePointEight) /\
  (forall times s,
     currentHandPos s = Vec.zero -> targetHandPos s = mkVector3 10 0 15 ->
     (77 <= length times)%nat ->
     Vec.distanceTo (currentHandPos (run (List.map Animate times) s))
                    (mkVector3 10 0 15) < 0.001) /\
  (forall times s,
     currentHandPos s = Vec.zero -> targetHandPos s = mkVector3 10 0 15 ->
     (length times <= 76)%nat ->
     0.001 < Vec.distanceTo (currentHandPos (run (List.map Animate times) s))
                            (mkVector3 10 0 15)).
Proof.
  pose proof distance_origin_10_0_15 as Hd.
  split; [reflexivity|]. split; [|split; [|split]].
  - intros time s Hc Ht. cbn [animate currentHandPos]. rewrite Hc, Ht.
    unfold Vec.lerp; simpl. f_equal; lra.
  - destruct binary64_lerp_one_tick as (H1 & H2 & _). now split.
  - intros times s Hc Ht Hn. rewrite distance_after_frames by assumption.
    pose proof (pow_088_le _ _ Hn) as Hp.
    assert (0 < 0.88 ^ length times) by (apply pow_lt; lra).
    assert (0.88 ^ 77 * 18.03 < 0.001) by lra.
    nra.
  - intros times s Hc Ht Hn. rewrite distance_after_frames by assumption.
    pose proof (pow_088_le _ _ Hn) as Hp.
    assert (0.001 < 0.88 ^ 76 * 18) by lra.
    assert (0 < 0.88 ^ 76) by (apply pow_lt; lra).
    nra.
Qed.

Lemma follow_lerp_12_percent_witness :
  currentHandPos (animate 0 aimedScene) = mkVector3 1.2 0 1.8 /\
  Vec.distanceTo (currentHandPos (run (List.map Animate (replicate 77 0)) aimedScene))
                 (mkVector3 10 0 15) < 0.001 /\
  0.001 < Vec.distanceTo
            (currentHandPos (run (List.map Animate (replicate 76 0)) aimedScene))
            (mkVector3 10 0 15).
Proof.
  destruct follow_lerp_12_percent as (_ & H1 & _ & H2 & H3).
  destruct aimedScene_hand as [Hc Ht].
  split; [|split].
  - apply H1; assumption.
  - apply H2; [assumption | assumption | simpl; lia].
  - apply H3; [assumption | assumption | simpl; lia].
Defined.

(** C4 as stated fails: after 50 frames at 60 Hz towards (10,0,15) from the
    origin, the smoothed position is still more than 0.03 away from the
    target, thirty times the 1e-3 of the claim.  (And on binary64 numbers
    the first step from 0 towards 15 does not give the number 1.8.) *)
Lemma follow_50_frames_still_far :
  currentHandPos aimedScene = Vec.zero /\
  targetHandPos aimedScene = mkVector3 10 0 15 /\
  0.03 < Vec.distanceTo (currentHandPos (run (framesAt60Hz 50) aimedScene))
                        (mkVector3 10 0 15) /\
  Binary64.lerp1 0%float 15%float Binary64.alpha <> Binary64.onePointEight.
Proof.
  destruct aimedScene_hand as [Hc Ht]. split; [exact Hc|]. split; [exact Ht|].
  split; [|exact (proj2 (proj2 binary64_lerp_one_tick))].
  assert (Hh : forallb handless (framesAt60Hz 50) = true) by reflexivity.
  destruct (handless_run_follow _ aimedScene Hh) as [_ Hg].
  replace (frames (framesAt60Hz 50)) with 50%nat in Hg by reflexivity.
  rewrite Hc, Ht in Hg.
  rewrite (scaledGap_distanceTo _ _ _ _ (pow_le 0.88 _ ltac:(lra)) Hg).
  pose proof distance_origin_10_0_15 as Hd.
  assert (0.03 < 0.88 ^ 50 * 18) by lra.
  assert (0 < 0.88 ^ 50) by (apply pow_lt; lra).
  nra.
Qed.

(** C8.  Over any run in which no hand position reaches the scene
    (detections that are not ready or see no hand, frames, loads), the
    target is never changed, and the smoothed position keeps closing in on
    that last target: its distance to it is the distance at the start
    times 0.88 per frame, in the same direction. *)
Theorem handless_run_keeps_approaching_last_target es s :
  forallb handless es = true ->
  targetHandPos (run es s) = targetHandPos s /\
  scaledGap (0.88 ^ frames es) (currentHandPos s) (currentHandPos (run es s))
            (targetHandPos s) /\
  Vec.distanceTo (currentHandPos (run es s)) (targetHandPos s)
    = 0.88 ^ frames es * Vec.distanceTo (currentHandPos s) (targetHandPos s) /\
  Vec.distanceTo (currentHandPos (run es s)) (targetHandPos s)
    <= Vec.distanceTo (currentHandPos s) (targetHandPos s).
Proof.
  intros H. destruct (handless_run_follow es s H) as [Ht Hg].
  pose proof (scaledGap_distanceTo _ _ _ _ (pow_le 0.88 (frames es) ltac:(lra)) Hg) as Hd.
  repeat split; try assumption; try apply Hg.
  rewrite Hd.
  assert (0 <= Vec.distanceTo (currentHandPos s) (targetHandPos s)) by apply sqrt_pos.
  pose proof (pow_088_le (frames es) 0 ltac:(lia)) as Hp. simpl in Hp.
  assert (0 < 0.88 ^ frames es) by (apply pow_lt; lra).
  nra.
Qed.

Lemma handless_run_keeps_approaching_last_target_witness :
  targetHandPos
    (run [Detect NoHand; Animate 1; Detect NotReady; Animate 2] aimedScene)
    = targetHandPos aimedScene.
Proof.
  apply (handless_run_keeps_approaching_last_target
           [Detect NoHand; Animate 1; Detect NotReady; Animate 2] aimedScene).
  reflexivity.
Defined.

(** ** The trail buffer *)

Lemma trailBody_length i a : length (trailBody i a) = length a.
Proof. unfold trailBody; cbv zeta. now rewrite !length_insert. Qed.

Lemma trailLoop_length start : forall a, length (trailLoop start a) = length a.
Proof.
  induction start as [|j IH]; intros a; [reflexivity|].
  simpl. now rewrite IH, trailBody_length.
Qed.

Lemma trailHead_length p a : length (trailHead p a) = length a.
Proof. unfold trailHead. now rewrite !length_insert. Qed.

Lemma trailPush_length p a : length (trailPush p a) = length a.
Proof. unfold trailPush. now rewrite trailHead_length, trailLoop_length. Qed.

(** The body for [i >= 1] copies slot [i - 1] into slot [i] and leaves
    every other slot alone. *)
Lemma slot_trailBody i a j :
  (1 <= i)%nat -> (i * 3 + 2 < length a)%nat ->
  slot (trailBody i a) j = if decide (j = i) then slot a (i - 1) else slot a j.
Proof.
  intros Hi Hlen. unfold slot, trailBody; cbv zeta. case_decide as Hj.
  - subst j. f_equal; array_reads.
  - f_equal; array_reads.
Qed.

(** The loop started at [start] shifts the slots [0 .. start - 1] into
    [1 .. start]. *)
Lemma slot_trailLoop start : forall a j,
  (start * 3 + 2 < length a)%nat ->
  slot (trailLoop start a) j
    = if decide (1 <= j <= start)%nat then slot a (j - 1) else slot a j.
Proof.
  induction start as [|k IH]; intros a j Hlen.
  - simpl. case_decide; [exfalso; lia | reflexivity].
  - cbn [trailLoop]. rewrite IH by (rewrite trailBody_length; lia).
    rewrite !slot_trailBody by lia.
    repeat case_decide; try reflexivity; try (exfalso; lia).
    + replace (S k - 1)%nat with (j - 1)%nat by lia. reflexivity.
Qed.

Lemma slot_trailHead p a j :
  (3 <= length a)%nat ->
  slot (trailHead p a) j = if decide (j = 0)%nat then p else slot a j.
Proof.
  intros Hlen. unfold slot, trailHead. case_decide as Hj.
  - subst j. destruct p as [x y z]. simpl. f_equal; array_reads.
  - f_equal; array_reads.
Qed.

(** One frame of the trail: the new position in slot 0, every other slot
    of the buffer takes what its predecessor held. *)
Lemma slot_trailPush p a j :
  length a = (tCount * 3)%nat -> (j < tCount)%nat ->
  slot (trailPush p a) j = if decide (j = 0)%nat then p else slot a (j - 1).
Proof.
  intros Hlen Hj. unfold trailPush, tCount in *.
  rewrite slot_trailHead by (rewrite trailLoop_length; lia).
  case_decide; [reflexivity|].
  rewrite slot_trailLoop by lia.
  case_decide; [reflexivity | exfalso; lia].
Qed.

Lemma feed_snoc ps p a : feed (ps ++ [p]) a = trailPush p (feed ps a).
Proof. unfold feed. now rewrite fold_left_app. Qed.

Lemma feed_length ps : forall a, length (feed ps a) = length a.
Proof.
  induction ps as [|p ps IH] using rev_ind; intros a; [reflexivity|].
  rewrite feed_snoc, trailPush_length. apply IH.
Qed.

(** Slot [j] of the trail holds the position pushed [j] frames ago. *)
Lemma slot_feed ps : forall a j p,
  length a = (tCount * 3)%nat -> (j < tCount)%nat ->
  reverse ps !! j = Some p -> slot (feed ps a) j = p.
Proof.
  induction ps as [|q ps IH] using rev_ind; intros a j p Hlen Hj Hp.
  - discriminate Hp.
  - rewrite reverse_snoc in Hp. rewrite feed_snoc.
    rewrite slot_trailPush by (rewrite ?feed_length; assumption).
    case_decide as H0.
    + subst j. now injection Hp.
    + destruct j as [|j']; [congruence|]. simpl in Hp.
      replace (S j' - 1)%nat with j' by lia. apply IH; [assumption|lia|assumption].
Qed.

Lemma fold_left_cons {A B} (f : A -> B -> A) x l a :
  fold_left f (x :: l) a = fold_left f l (f a x).
Proof. reflexivity. Qed.

Lemma feed_cons p ps a : feed (p :: ps) a = feed ps (trailPush p a).
Proof. exact (fold_left_cons (fun a p => trailPush p a) p ps a). Qed.

Lemma animate_tArray time s :
  tArray (animate time s)
    = trailPush (currentHandPos (animate time s)) (tArray s).
Proof. reflexivity. Qed.

Lemma tArray_frames times : forall s,
  tArray (run (List.map Animate times) s)
    = feed (smoothedPositions times s) (tArray s).
Proof.
  induction times as [|t times IH]; intros s; [reflexivity|].
  change (List.map Animate (t :: times))
    with (Animate t :: List.map Animate times).
  rewrite run_cons. change (step s (Animate t)) with (animate t s).
  rewrite IH.
  change (smoothedPositions (t :: times) s)
    with (currentHandPos (animate t s) :: smoothedPositions times (animate t s)).
  now rewrite feed_cons, animate_tArray.
Qed.

Lemma step_tArray_length s e : length (tArray (step s e)) = length (tArray s).
Proof.
  destruct e as [time|x y p|r|url|[tex now u1 u2 u3|]].
  - change (step s (Animate time)) with (animate time s).
    rewrite animate_tArray. apply trailPush_length.
  - reflexivity.
  - destruct (step_detect r s) as [-> | (x & y & p & ->)]; reflexivity.
  - reflexivity.
  - reflexivity.
  - reflexivity.
Qed.

Lemma run_tArray_length es s : length (tArray (run es s)) = length (tArray s).
Proof.
  apply (run_invariant (fun s' => length (tArray s') = length (tArray s)));
    [|reflexivity].
  intros s0 e H. now rewrite step_tArray_length.
Qed.

Lemma initScene_tArray_length rnd :
  length (tArray (initScene rnd)) = (tCount * 3)%nat.
Proof. apply length_replicate. Qed.

(** C5.  The trail has [tCount = 60] slots after every run from the
    initial scene.  A frame puts the new smoothed position in slot 0 and
    gives every slot [i] from 1 to 59 what slot [i - 1] held before.  So
    after sixty positions have been pushed, slot 0 holds the last and slot
    59 the first of them; and the positions pushed by a run of frames are
    the smoothed hand positions of those frames. *)
Theorem trail_buffer_shift :
  tCount = 60%nat /\
  (forall rnd es, length (tArray (run es (initScene rnd))) = (tCount * 3)%nat) /\
  (forall time s i,
     length (tArray s) = (tCount * 3)%nat -> (i < tCount)%nat ->
     slot (tArray (animate time s)) i
       = if decide (i = 0)%nat then currentHandPos (animate time s)
         else slot (tArray s) (i - 1)) /\
  (forall ps a,
     length a = (tCount * 3)%nat -> length ps = 60%nat ->
     Some (slot (feed ps a) 0) = ps !! 59%nat /\
     Some (slot (feed ps a) 59) = ps !! 0%nat) /\
  (forall times s,
     tArray (run (List.map Animate times) s)
       = feed (smoothedPositions times s) (tArray s)).
Proof.
  split; [reflexivity|]. split; [|split; [|split]].
  - intros rnd es. now rewrite run_tArray_length, initScene_tArray_length.
  - intros time s i Hlen Hi. rewrite animate_tArray.
    now apply slot_trailPush.
  - intros ps a Hlen Hps.
    assert (H : forall j, (j < 60)%nat ->
                Some (slot (feed ps a) j) = ps !! (59 - j)%nat).
    { intros j Hj.
      destruct (reverse ps !! j) as [p|] eqn:E.
      - rewrite (slot_feed ps a j p Hlen Hj E).
        rewrite reverse_lookup in E by lia. rewrite Hps in E.
        now replace (59 - j)%nat with (60 - S j)%nat by lia.
      - apply lookup_ge_None_1 in E. rewrite length_reverse in E. lia. }
    split; [apply (H 0%nat) | apply (H 59%nat)]; lia.
  - intros times s. apply tArray_frames.
Qed.

Lemma trail_buffer_shift_witness :
  Some (slot (feed sixtyPositions (newFloat32Array (tCount * 3))) 0)
    = sixtyPositions !! 59%nat /\
  Some (slot (feed sixtyPositions (newFloat32Array (tCount * 3))) 59)
    = sixtyPositions !! 0%nat /\
  slot (tArray (animate 0 aimedScene)) 1 = slot (tArray aimedScene) 0.
Proof.
  destruct trail_buffer_shift as (_ & _ & H2 & H3 & _).
  destruct (H3 sixtyPositions (newFloat32Array (tCount * 3))) as [A B];
    [reflexivity | reflexivity |].
  split; [exact A|]. split; [exact B|].
  apply (H2 0 aimedScene 1%nat); [reflexivity | unfold tCount; lia].
Defined.

(** ** Before the first hand *)

Lemma lerp_zero alpha : Vec.lerp Vec.zero Vec.zero alpha = Vec.zero.
Proof. unfold Vec.lerp, Vec.zero; simpl. f_equal; lra. Qed.

Lemma initScene_atOrigin rnd : atOrigin (initScene rnd).
Proof.
  split; [reflexivity|]. split; [reflexivity|].
  split; [apply initScene_tArray_length|].
  intros i Hi. unfold slot, Vec.zero. cbn [initScene tArray].
  unfold newFloat32Array, tCount in *.
  rewrite !lookup_total_replicate_2 by lia. reflexivity.
Qed.

Lemma animate_atOrigin time s : atOrigin s -> atOrigin (animate time s).
Proof.
  intros (Ht & Hc & Hlen & Hs).
  assert (Hc' : currentHandPos (animate time s) = Vec.zero).
  { cbn [animate currentHandPos]. rewrite Hc, Ht. apply lerp_zero. }
  split; [exact Ht|]. split; [exact Hc'|].
  rewrite animate_tArray, Hc'. split; [now rewrite trailPush_length|].
  intros i Hi. rewrite slot_trailPush by assumption.
  case_decide; [reflexivity|]. apply Hs. lia.
Qed.

Lemma handless_step_atOrigin s e :
  handless e = true -> atOrigin s -> atOrigin (step s e).
Proof.
  intros He Hs. destruct (step_handless s e He) as [(time & ->) | (_ & ms & ->)].
  - now apply animate_atOrigin.
  - exact Hs.
Qed.

Lemma handless_run_atOrigin es : forall s,
  forallb handless es = true -> atOrigin s -> atOrigin (run es s).
Proof.
  induction es as [|e es IH]; intros s H Hs; [exact Hs|].
  simpl in H. apply andb_prop in H as [He Hes].
  rewrite run_cons. apply IH; [exact Hes|]. now apply handless_step_atOrigin.
Qed.

(** C10.  From the initial scene, as long as no hand position has reached
    the scene (no [updateHandInteraction], directly or through a detection
    with a hand), whatever frames, detections without a hand and image
    loads have happened, the target and the smoothed hand position are
    (0,0,0) and each of the 60 slots of the trail holds (0,0,0). *)
Theorem no_hand_stays_at_origin rnd es :
  forallb handless es = true ->
  targetHandPos (run es (initScene rnd)) = mkVector3 0 0 0 /\
  currentHandPos (run es (initScene rnd)) = mkVector3 0 0 0 /\
  forall i, (i < 60)%nat -> slot (tArray (run es (initScene rnd))) i = mkVector3 0 0 0.
Proof.
  intros H.
  destruct (handless_run_atOrigin es (initScene rnd) H (initScene_atOrigin rnd))
    as (Ht & Hc & _ & Hs).
  auto.
Qed.

Lemma no_hand_stays_at_origin_witness :
  currentHandPos
    (run [Animate 0; Detect NoHand; Animate 0.016; AddMemory 1; Animate 0.033]
         (initScene zeroDraws)) = mkVector3 0 0 0.
Proof.
  apply (no_hand_stays_at_origin zeroDraws
           [Animate 0; Detect NoHand; Animate 0.016; AddMemory 1; Animate 0.033]).
  reflexivity.
Defined.

(** ** Hand reports *)

Lemma binary64_target_at_0_7 :
  Binary64.targetX Binary64.pointSeven = Binary64.justBelowTwelve /\
  Binary64.specTargetX Binary64.pointSeven = 12%float.
Proof. split; vm_compute; reflexivity. Qed.

(** C6, as amended.  [updateHandInteraction x y pinching] sets the target
    to [((x - 0.5)*60, (0.5 - y)*45, 15)], which is
    [(x*60 - 30, (0.5 - y)*45, 15)] in exact arithmetic (on binary64
    numbers the two differ: at [x = 0.7] the code gives
    11.999999999999996 and [x*60 - 30] gives 12); it latches the pinch
    signal, and eases the two rotations by 4% towards [(y - 0.5)*0.25] and
    [(x - 0.5)*0.5]; a detection with a hand makes this call with the palm
    centre (landmark 9); and no step without a hand report changes the
    rotations. *)
Theorem updateHandInteraction_target_and_rotation :
  (forall x y isPinching s,
     let s' := updateHandInteraction x y isPinching s in
     targetHandPos s' = mkVector3 ((x - 0.5) * 60) ((0.5 - y) * 45) 15 /\
     (x - 0.5) * 60 = x * 60 - 30 /\
     isPinchingRef s' = isPinching /\
     rotationX s' = rotationX s + ((y - 0.5) * 0.25 - rotationX s) * 0.04 /\
     rotationY s' = rotationY s + ((x - 0.5) * 0.5 - rotationY s) * 0.04) /\
  (Binary64.targetX Binary64.pointSeven = Binary64.justBelowTwelve /\
   Binary64.specTargetX Binary64.pointSeven = 12%float) /\
  (forall landmarks s s',
     detectLoop (Hand landmarks) s = Some s' ->
     exists palm isPinching,
       landmarks !! 9%nat = Some palm /\
       s' = updateHandInteraction (lx palm) (ly palm) isPinching s) /\
  (forall s e,
     handless e = true ->
     rotationX (step s e) = rotationX s /\ rotationY (step s e) = rotationY s).
Proof.
  split; [|split; [|split]].
  - intros x y p s; cbv zeta. cbn [updateHandInteraction targetHandPos
      isPinchingRef rotationX rotationY].
    repeat split. lra.
  - exact binary64_target_at_0_7.
  - apply detectLoop_hand.
  - intros s e He.
    destruct (step_handless s e He) as [(time & ->) | (_ & ms & ->)];
      split; reflexivity.
Qed.

(** C6 as stated fails on the numbers of the code: at [x = 0.7] the first
    coordinate that [updateHandInteraction] computes, [(x - 0.5)*60], is
    11.999999999999996 on binary64, not the 12 that [x*60 - 30] gives. *)
Lemma target_differs_from_spec_formula_at_0_7 :
  Binary64.targetX Binary64.pointSeven = Binary64.justBelowTwelve /\
  Binary64.specTargetX Binary64.pointSeven = 12%float /\
  Binary64.targetX Binary64.pointSeven <> Binary64.specTargetX Binary64.pointSeven.
Proof.
  destruct binary64_target_at_0_7 as [H1 H2].
  split; [exact H1|]. split; [exact H2|].
  intros H.
  assert (E : PrimFloat.eqb (Binary64.targetX Binary64.pointSeven)
                            (Binary64.specTargetX Binary64.pointSeven) = true)
    by (rewrite H; reflexivity).
  vm_compute in E. discriminate E.
Qed.

Lemma detectLoop_centredHand s :
  detectLoop (Hand centredHand) s = Some (updateHandInteraction 0.5 0.5 true s).
Proof.
  unfold detectLoop, centredHand. cbn [replicate lookup list_lookup mbind option_bind lx ly].
  destruct (Rlt_dec _ 0.055) as [_|Hn]; [reflexivity|].
  exfalso. apply Hn.
  replace ((0.5 - 0.5) ^ 2 + (0.5 - 0.5) ^ 2) with 0 by lra.
  rewrite sqrt_0. lra.
Qed.

Lemma updateHandInteraction_target_and_rotation_witness :
  rotationX (step aimedScene (Animate 1)) = rotationX aimedScene /\
  exists palm isPinching,
    centredHand !! 9%nat = Some palm /\
    updateHandInteraction 0.5 0.5 true aimedScene
      = updateHandInteraction (lx palm) (ly palm) isPinching aimedScene.
Proof.
  destruct updateHandInteraction_target_and_rotation as (_ & _ & H2 & H3).
  split.
  - apply (H3 aimedScene (Animate 1)). reflexivity.
  - apply (H2 centredHand aimedScene). apply detectLoop_centredHand.
Defined.

(** ** The vortex *)

Lemma fold_left_invariant {A B} (P : A -> Prop) (f : A -> B -> A) l :
  (forall a x, P a -> P (f a x)) -> forall a, P a -> P (fold_left f l a).
Proof.
  intros Hf. induction l as [|x l IH]; intros a Ha; [exact Ha|].
  apply IH, Hf, Ha.
Qed.

Lemma vortexBody_length time pf meta pos i :
  length (vortexBody time pf meta pos i) = length pos.
Proof. unfold vortexBody; cbv zeta. now rewrite !length_insert. Qed.

Lemma vortexLoop_length time pf meta pos :
  length (vortexLoop time pf meta pos) = length pos.
Proof.
  unfold vortexLoop.
  apply (fold_left_invariant (fun a => length a = length pos)); [|reflexivity].
  intros a x Ha. now rewrite vortexBody_length.
Qed.

(** The body for particle [i] rewrites slot [i] and nothing else. *)
Lemma slot_vortexBody time pf meta pos i j :
  (i * 3 + 2 < length pos)%nat ->
  slot (vortexBody time pf meta pos i) j
    = if decide (j = i) then particle time pf meta pos i else slot pos j.
Proof.
  intros Hlen. unfold slot, vortexBody, particle, slot; cbv zeta.
  case_decide as Hj.
  - subst j. cbn [vy]. f_equal; array_reads.
  - f_equal; array_reads.
Qed.

(** The first [n] iterations of the loop have moved the particles below
    [n], each from where the frame found it. *)
Lemma slot_vortex_prefix time pf meta n : forall pos j,
  (n * 3 <= length pos)%nat ->
  slot (fold_left (vortexBody time pf meta) (seq 0 n) pos) j
    = if decide (j < n)%nat then particle time pf meta pos j else slot pos j.
Proof.
  induction n as [|n IH]; intros pos j Hlen.
  - cbn [seq fold_left]. now rewrite decide_False by lia.
  - rewrite seq_S, fold_left_app. cbn [fold_left Nat.add].
    assert (Hl : length (fold_left (vortexBody time pf meta) (seq 0 n) pos)
                 = length pos).
    { apply (fold_left_invariant (fun a => length a = length pos)); [|reflexivity].
      intros a x Ha. now rewrite vortexBody_length. }
    rewrite slot_vortexBody by lia.
    case_decide as Hj.
    + subst j. rewrite decide_True by lia.
      unfold particle. rewrite IH by lia. rewrite decide_False by lia. reflexivity.
    + rewrite IH by lia. repeat case_decide; try reflexivity; exfalso; lia.
Qed.

Lemma slot_vortexLoop time pf meta pos i :
  length pos = (vCount * 3)%nat -> (i < vCount)%nat ->
  slot (vortexLoop time pf meta pos) i = particle time pf meta pos i.
Proof.
  intros Hlen Hi. unfold vortexLoop.
  rewrite slot_vortex_prefix by lia. now rewrite decide_True.
Qed.

Lemma initVortexBody_lengths rnd acc i :
  length (fst (initVortexBody rnd acc i)) = length (fst acc) /\
  length (snd (initVortexBody rnd acc i)) = length (snd acc).
Proof.
  unfold initVortexBody; cbv zeta; cbn [fst snd]. now rewrite !length_insert.
Qed.

Lemma initVortex_lengths rnd :
  length (fst (initVortex rnd)) = (vCount * 3)%nat /\
  length (snd (initVortex rnd)) = (vCount * 2)%nat.
Proof.
  unfold initVortex.
  apply (fold_left_invariant
           (fun acc => length (fst acc) = (vCount * 3)%nat /\
                       length (snd acc) = (vCount * 2)%nat)).
  - intros acc i [H1 H2].
    destruct (initVortexBody_lengths rnd acc i) as [-> ->]. now split.
  - cbn [fst snd]. unfold newFloat32Array. now rewrite !length_replicate.
Qed.

Lemma initScene_vPos rnd : vPos (initScene rnd) = fst (initVortex rnd).
Proof. reflexivity. Qed.

Lemma initScene_vPos_length rnd :
  length (vPos (initScene rnd)) = (vCount * 3)%nat.
Proof. rewrite initScene_vPos. exact (proj1 (initVortex_lengths rnd)). Qed.

Lemma animate_vortex time s :
  vPos (animate time s)
    = vortexLoop time (pinchFactor (animate time s)) (vMeta s) (vPos s) /\
  vMeta (animate time s) = vMeta s /\
  vMatOpacity (animate time s) = 0.4 + pinchFactor (animate time s) * 0.5.
Proof. repeat split. Qed.

(** No step adds or removes a particle, or changes a particle's base
    radius or angular speed. *)
Lemma step_vortex s e :
  length (vPos (step s e)) = length (vPos s) /\ vMeta (step s e) = vMeta s.
Proof.
  destruct e as [time|x y p|r|url|[tex now u1 u2 u3|]].
  - change (step s (Animate time)) with (animate time s).
    destruct (animate_vortex time s) as (-> & -> & _).
    now rewrite vortexLoop_length.
  - split; reflexivity.
  - destruct (step_detect r s) as [-> | (x & y & p & ->)]; split; reflexivity.
  - split; reflexivity.
  - split; reflexivity.
  - split; reflexivity.
Qed.

Lemma run_vortex es s :
  length (vPos (run es s)) = length (vPos s) /\ vMeta (run es s) = vMeta s.
Proof.
  apply (run_invariant
           (fun s' => length (vPos s') = length (vPos s) /\ vMeta s' = vMeta s));
    [|now split].
  intros s0 e [H1 H2]. destruct (step_vortex s0 e) as [-> ->]. now split.
Qed.

(** C7.  In every scene reached from the initial one there are exactly
    [vCount = 4000] particles, with the base radius and angular speed they
    were given at initialisation.  A frame at time [t] puts particle [i]
    at angle [(i/N)*2*PI + t*0.2*angularSpeed_i] on the circle of radius
    [baseRadius_i * (1 + pinchFactor*0.3)] (x the cosine, z the sine), adds
    [cos(t + i)*0.01] to the height the particle had, and sets the opacity
    of the field to [0.4 + pinchFactor*0.5], with [pinchFactor] the value
    just smoothed by this frame. *)
Theorem vortex_particle_per_frame rnd es time i :
  (i < vCount)%nat ->
  let s := run es (initScene rnd) in
  let s' := animate time s in
  let baseRadius := vMeta s !!! (i * 2)%nat in
  let angularSpeed := vMeta s !!! (i * 2 + 1)%nat in
  let angle := INR i / INR vCount * (2 * PI) + time * 0.2 * angularSpeed in
  let radius := baseRadius * (1 + pinchFactor s' * 0.3) in
  vCount = 4000%nat /\
  slot (vPos s') i
    = mkVector3 (cos angle * radius)
                (vy (slot (vPos s) i) + cos (time + INR i) * 0.01)
                (sin angle * radius) /\
  vMatOpacity s' = 0.4 + pinchFactor s' * 0.5 /\
  length (vPos s) = (vCount * 3)%nat /\
  length (vPos s') = (vCount * 3)%nat /\
  vMeta s = vMeta (initScene rnd) /\
  vMeta s' = vMeta s.
Proof.
  intros Hi; cbv zeta.
  destruct (run_vortex es (initScene rnd)) as [Hlen Hmeta].
  rewrite initScene_vPos_length in Hlen.
  destruct (animate_vortex time (run es (initScene rnd))) as (Hp & Hm & Ho).
  split; [reflexivity|]. split; [|split; [|split; [|split; [|split]]]].
  - rewrite Hp, slot_vortexLoop by assumption. unfold particle; cbv zeta.
    replace (INR i / INR vCount * (2 * PI)) with (INR i / INR vCount * PI * 2)
      by ring.
    reflexivity.
  - exact Ho.
  - exact Hlen.
  - rewrite Hp, vortexLoop_length. exact Hlen.
  - exact Hmeta.
  - exact Hm.
Qed.

Lemma vortex_particle_per_frame_witness :
  vMatOpacity (animate 0 (run [] (initScene zeroDraws)))
    = 0.4 + pinchFactor (animate 0 (run [] (initScene zeroDraws))) * 0.5 /\
  length (vPos (animate 0 (run [] (initScene zeroDraws)))) = (vCount * 3)%nat.
Proof.
  assert (H0 : (0 < vCount)%nat) by (unfold vCount; lia).
  pose proof (vortex_particle_per_frame zeroDraws [] 0 0%nat H0) as H.
  cbv zeta in H. destruct H as (_ & _ & Ho & _ & Hl & _).
  split; [exact Ho | exact Hl].
Defined.

(** ** Memory artifacts *)

Lemma animate_memories time s :
  memories (animate time s) = List.map (updateMemory time) (memories s).
Proof. reflexivity. Qed.

(** While the artifact is younger than 1.5 s every material gets the
    opacity [age / 1.5]. *)
Lemma updateMemory_fading time g :
  time - birth g < 1.5 ->
  matRefs (updateMemory time g)
    = List.map (fun _ => (time - birth g) / 1.5) (matRefs g).
Proof.
  intros H. unfold updateMemory; cbv zeta; cbn [matRefs].
  destruct (Rlt_dec (time - birth g) 1.5); [reflexivity | contradiction].
Qed.

(** From 1.5 s on the frame does not write the opacities at all. *)
Lemma updateMemory_faded time g :
  1.5 <= time - birth g -> matRefs (updateMemory time g) = matRefs g.
Proof.
  intros H. unfold updateMemory; cbv zeta; cbn [matRefs].
  destruct (Rlt_dec (time - birth g) 1.5); [lra | reflexivity].
Qed.

(** So no frame ever writes the opacity 1: opacities below 1 stay below 1. *)
Lemma updateMemory_below_one time g :
  Forall (fun o => o < 1) (matRefs g) ->
  Forall (fun o => o < 1) (matRefs (updateMemory time g)).
Proof.
  intros H. destruct (Rlt_dec (time - birth g) 1.5) as [Hlt|Hge].
  - rewrite updateMemory_fading by assumption.
    induction (matRefs g) as [|o l IH]; constructor; [lra|].
    apply IH. now inversion H.
  - rewrite updateMemory_faded by lra. exact H.
Qed.

Lemma updateMemory_birth time g : birth (updateMemory time g) = birth g.
Proof. reflexivity. Qed.

Lemma freshMemory_fields :
  birth freshMemory = 15 /\ matRefs freshMemory = [0; 0] /\
  vx (position freshMemory) = -15 /\ vy (position freshMemory) = 0.
Proof.
  unfold freshMemory, newMemoryGroup; cbv zeta; cbn [birth matRefs position vx vy].
  repeat split.
  - replace (1 / 2 * PI * 2) with PI by lra. rewrite cos_PI. lra.
  - lra.
Qed.

Lemma step_belowFullOpacity s e : belowFullOpacity s -> belowFullOpacity (step s e).
Proof.
  unfold belowFullOpacity. intros H.
  destruct e as [time|x y p|r|url|[tex now u1 u2 u3|]].
  - change (step s (Animate time)) with (animate time s).
    rewrite animate_memories.
    induction H as [|g l Hg Hl IH]; constructor; [|exact IH].
    now apply updateMemory_below_one.
  - exact H.
  - destruct (step_detect r s) as [-> | (x & y & p & ->)]; exact H.
  - exact H.
  - cbn [step loadFinished onTextureLoaded setMemories memories].
    apply Forall_app. split; [exact H|].
    repeat constructor; cbn [newMemoryGroup matRefs]; lra.
  - exact H.
Qed.

(** C1 fails on the code: the frame only writes an opacity while
    [age < 1.5], and what it writes is [age / 1.5 < 1]; nothing sets the
    opacity to 1.  For the artifact loaded at elapsed time 15: if the first
    frame after the load comes at time 17, the opacity is still 0 at age
    2; and after frames at times 16 and 17 it is 1/1.5 at age 2, where the
    claim says 1.  In no scene reached from the initial one does any
    artifact have an opacity of 1. *)
Theorem fade_in_stops_short_of_one :
  1.5 <= 17 - birth freshMemory /\
  matRefs (updateMemory 17 freshMemory) = [0; 0] /\
  matRefs (updateMemory 17 (updateMemory 16 freshMemory)) = [1 / 1.5; 1 / 1.5] /\
  1 / 1.5 <> 1 /\
  (forall rnd es, belowFullOpacity (run es (initScene rnd))).
Proof.
  destruct freshMemory_fields as (Hb & Hm & _).
  split; [rewrite Hb; lra|]. split; [|split; [|split]].
  - rewrite updateMemory_faded by (rewrite Hb; lra). exact Hm.
  - rewrite updateMemory_faded by (rewrite updateMemory_birth, Hb; lra).
    rewrite updateMemory_fading by (rewrite Hb; lra).
    rewrite Hm, Hb. cbn [List.map].
    replace ((16 - 15) / 1.5) with (1 / 1.5) by lra. reflexivity.
  - lra.
  - intros rnd es. apply (run_invariant belowFullOpacity).
    + intros s e. apply step_belowFullOpacity.
    + constructor.
Qed.

(** C2, as amended.  The per-frame update of an artifact adds
    [sin(t + position.x) * 0.015] to [position.y] on every frame, whatever
    the age of the artifact, and leaves [position.x] and [position.z]
    alone; [animate] applies this update to every artifact. *)
Theorem memory_bob_on_every_frame :
  (forall time g,
     position (updateMemory time g)
       = mkVector3 (vx (position g))
                   (vy (position g) + sin (time + vx (position g)) * 0.015)
                   (vz (position g))) /\
  (forall time s,
     memories (animate time s) = List.map (updateMemory time) (memories s)).
Proof. split; reflexivity. Qed.

(** C2 as stated fails: the artifact loaded at time 15 is 1 s old at the
    frame of time 16, still fading in (that frame sets its opacity to
    1/1.5), and the same frame moves it up by [sin 1 * 0.015 > 0]. *)
Lemma bob_applied_while_fading_in :
  16 - birth freshMemory < 1.5 /\
  matRefs (updateMemory 16 freshMemory) = [1 / 1.5; 1 / 1.5] /\
  vy (position (updateMemory 16 freshMemory)) <> vy (position freshMemory).
Proof.
  destruct freshMemory_fields as (Hb & Hm & Hx & Hy).
  split; [rewrite Hb; lra|]. split.
  - rewrite updateMemory_fading by (rewrite Hb; lra).
    rewrite Hm, Hb. cbn [List.map].
    replace ((16 - 15) / 1.5) with (1 / 1.5) by lra. reflexivity.
  - cbn [updateMemory position vy]. rewrite Hx, Hy.
    replace (16 + -15) with 1 by lra.
    assert (0 < sin 1).
    { apply sin_gt_0; [lra|]. pose proof PI2_1. lra. }
    lra.
Qed.


Lemma step_memories_length s e :
  isLoadSuccess e = false -> length (memories (step s e)) = length (memories s).
Proof.
  destruct e as [time|x y p|r|url|[tex now u1 u2 u3|]]; intros H.
  - change (step s (Animate time)) with (animate time s).
    rewrite animate_memories. apply length_map.
  - reflexivity.
  - destruct (step_detect r s) as [-> | (x & y & p & ->)]; reflexivity.
  - reflexivity.
  - discriminate H.
  - reflexivity.
Qed.



(** * Further properties of the code *)

(** ** Steps that are not frames *)

(** A step is a frame, or changes nothing, or is one hand report, or only
    replaces the list of artifacts. *)
Lemma step_cases s e :
  (exists time, e = Animate time) \/
  frames [e] = 0%nat /\
  (step s e = s \/
   (exists x y p, step s e = updateHandInteraction x y p s) \/
   (exists ms, step s e = setMemories ms s)).
Proof.
  destruct e as [time|x y p|r|url|[tex now u1 u2 u3|]].
  - left. eauto.
  - right. split; [reflexivity|]. right. left. eauto.
  - right. split; [reflexivity|].
    destruct (step_detect r s) as [H | H]; [left | right; left]; exact H.
  - right. split; [reflexivity|]. left. reflexivity.
  - right. split; [reflexivity|]. right. right. eexists. reflexivity.
  - right. split; [reflexivity|]. left. reflexivity.
Qed.

Lemma frames_cons e es : frames (e :: es) = (frames [e] + frames es)%nat.
Proof. destruct e; reflexivity. Qed.

Lemma frames_app es1 es2 : frames (es1 ++ es2) = (frames es1 + frames es2)%nat.
Proof.
  induction es1 as [|e es1 IH]; [reflexivity|].
  rewrite <- app_comm_cons, frames_cons, IH, (frames_cons e es1). lia.
Qed.

(** Induction on a run from its last event. *)
Lemma run_ind_snoc (P : list event -> Scene -> Prop) s :
  P [] s ->
  (forall es e, P es (run es s) -> P (es ++ [e]) (step (run es s) e)) ->
  forall es, P es (run es s).
Proof.
  intros H0 Hstep es. induction es as [|e es IH] using rev_ind; [exact H0|].
  rewrite run_snoc. apply Hstep, IH.
Qed.

(** ** Pinch, field opacity and star *)

Lemma initScene_fields rnd :
  pinchFactor (initScene rnd) = 0 /\ vMatOpacity (initScene rnd) = 0.5 /\
  starRotationY (initScene rnd) = 0 /\ starScale (initScene rnd) = 1 /\
  rotationX (initScene rnd) = 0 /\ rotationY (initScene rnd) = 0 /\
  memories (initScene rnd) = [].
Proof. repeat split. Qed.

(** X1.  In every scene reached from the initial one the pinch factor is in
    [0,1] and the opacity of the particle field is in [0.4, 0.9]. *)
Theorem pinch_and_field_opacity_ranges rnd es :
  0 <= pinchFactor (run es (initScene rnd)) <= 1 /\
  0.4 <= vMatOpacity (run es (initScene rnd)) <= 0.9.
Proof.
  apply (run_invariant
           (fun s => 0 <= pinchFactor s <= 1 /\ 0.4 <= vMatOpacity s <= 0.9)).
  - intros s e [Hp Ho].
    pose proof (step_pinchFactor_unit s e Hp) as Hp'.
    split; [exact Hp'|].
    destruct (step_cases s e) as [(time & ->) | (_ & [E | [(x & y & p & E) | (ms & E)]])].
    + change (step s (Animate time)) with (animate time s) in *.
      destruct (animate_vortex time s) as (_ & _ & ->). lra.
    + now rewrite E.
    + now rewrite E.
    + now rewrite E.
  - destruct (initScene_fields rnd) as (-> & -> & _). lra.
Qed.

Lemma step_star s e :
  starRotationY (step s e) = starRotationY s + 0.02 * INR (frames [e]) /\
  (0.9 <= starScale s <= 1.1 -> 0.9 <= starScale (step s e) <= 1.1).
Proof.
  destruct (step_cases s e) as [(time & ->) | (-> & [E | [(x & y & p & E) | (ms & E)]])].
  - cbn [step animate starRotationY starScale frames INR]. split; [lra|].
    intros _. pose proof (SIN_bound (time * 3)). lra.
  - rewrite E. cbn [INR]. split; [lra | tauto].
  - rewrite E. cbn [updateHandInteraction starRotationY starScale INR].
    split; [lra | tauto].
  - rewrite E. cbn [setMemories starRotationY starScale INR].
    split; [lra | tauto].
Qed.

(** X2.  The star turns by 0.02 rad per frame, whatever the elapsed time between
    frames, so after a run its angle is 0.02 times the number of frames;
    and its scale stays within [0.9, 1.1]. *)
Theorem star_turns_per_frame rnd es :
  starRotationY (run es (initScene rnd)) = 0.02 * INR (frames es) /\
  0.9 <= starScale (run es (initScene rnd)) <= 1.1.
Proof.
  apply (run_ind_snoc
           (fun es s => starRotationY s = 0.02 * INR (frames es) /\
                        0.9 <= starScale s <= 1.1)).
  - destruct (initScene_fields rnd) as (_ & _ & -> & -> & _). cbn. lra.
  - intros es0 e [Hr Hs]. destruct (step_star (run es0 (initScene rnd)) e) as [-> H].
    split; [|exact (H Hs)].
    rewrite Hr, frames_app, plus_INR. lra.
Qed.

(** ** The vortex, from its initialisation on *)

Lemma initVortexBody_spec rnd acc i j :
  (i * 3 + 2 < length (fst acc))%nat -> (i * 2 + 1 < length (snd acc))%nat ->
  slot (fst (initVortexBody rnd acc i)) j
    = (if decide (j = i) then initialParticle rnd i else slot (fst acc) j) /\
  snd (initVortexBody rnd acc i) !!! (j * 2)%nat
    = (if decide (j = i) then baseRadius rnd i else snd acc !!! (j * 2)%nat) /\
  snd (initVortexBody rnd acc i) !!! (j * 2 + 1)%nat
    = (if decide (j = i) then angularSpeed rnd i else snd acc !!! (j * 2 + 1)%nat).
Proof.
  intros H1 H2.
  unfold initVortexBody, slot, initialParticle, baseRadius, angularSpeed;
    cbv zeta; cbn [fst snd].
  case_decide as Hj.
  - subst j. repeat split; [f_equal|..]; array_reads.
  - repeat split; [f_equal|..]; array_reads.
Qed.

Lemma initVortex_prefix_lengths rnd n acc :
  length (fst (fold_left (initVortexBody rnd) (seq 0 n) acc)) = length (fst acc) /\
  length (snd (fold_left (initVortexBody rnd) (seq 0 n) acc)) = length (snd acc).
Proof.
  apply (fold_left_invariant
           (fun a => length (fst a) = length (fst acc) /\
                     length (snd a) = length (snd acc))); [|now split].
  intros a x [H1 H2].
  destruct (initVortexBody_lengths rnd a x) as [-> ->]. now split.
Qed.

Lemma initVortex_prefix rnd n : forall acc j,
  (n * 3 <= length (fst acc))%nat -> (n * 2 <= length (snd acc))%nat ->
  slot (fst (fold_left (initVortexBody rnd) (seq 0 n) acc)) j
    = (if decide (j < n)%nat then initialParticle rnd j else slot (fst acc) j) /\
  snd (fold_left (initVortexBody rnd) (seq 0 n) acc) !!! (j * 2)%nat
    = (if decide (j < n)%nat then baseRadius rnd j else snd acc !!! (j * 2)%nat) /\
  snd (fold_left (initVortexBody rnd) (seq 0 n) acc) !!! (j * 2 + 1)%nat
    = (if decide (j < n)%nat then angularSpeed rnd j
       else snd acc !!! (j * 2 + 1)%nat).
Proof.
  induction n as [|n IH]; intros acc j H1 H2.
  - cbn [seq fold_left]. now rewrite !decide_False by lia.
  - rewrite seq_S, fold_left_app. cbn [fold_left Nat.add].
    destruct (initVortex_prefix_lengths rnd n acc) as [L1 L2].
    destruct (initVortexBody_spec rnd
                (fold_left (initVortexBody rnd) (seq 0 n) acc) n j)
      as (-> & -> & ->); [lia | lia |].
    destruct (IH acc j) as (-> & -> & ->); [lia | lia |].
    repeat split; repeat case_decide; subst; try reflexivity; exfalso; lia.
Qed.

Lemma initScene_vMeta rnd : vMeta (initScene rnd) = snd (initVortex rnd).
Proof. reflexivity. Qed.

Lemma initVortex_particle rnd i :
  (i < vCount)%nat ->
  slot (fst (initVortex rnd)) i = initialParticle rnd i /\
  snd (initVortex rnd) !!! (i * 2)%nat = baseRadius rnd i /\
  snd (initVortex rnd) !!! (i * 2 + 1)%nat = angularSpeed rnd i.
Proof.
  intros Hi. unfold initVortex.
  destruct (initVortex_prefix rnd vCount
              (newFloat32Array (vCount * 3), newFloat32Array (vCount * 2)) i)
    as (-> & -> & ->).
  - cbn [fst]. unfold newFloat32Array. rewrite length_replicate. lia.
  - cbn [snd]. unfold newFloat32Array. rewrite length_replicate. lia.
  - now rewrite !decide_True by assumption.
Qed.

Lemma reachable_vMeta rnd es i :
  (i < vCount)%nat ->
  vMeta (run es (initScene rnd)) !!! (i * 2)%nat = baseRadius rnd i /\
  vMeta (run es (initScene rnd)) !!! (i * 2 + 1)%nat = angularSpeed rnd i.
Proof.
  intros Hi. destruct (run_vortex es (initScene rnd)) as [_ ->].
  rewrite initScene_vMeta.
  destruct (initVortex_particle rnd i Hi) as (_ & -> & ->). now split.
Qed.

(** X3.  When every draw is in [0,1), the initialisation stores for each of
    the 4000 particles a base radius between 8 and 33 and an angular speed
    between 0.5 and 2, and places it at a height between -9 and 36; no
    later event writes the radii and speeds. *)
Theorem vortex_initial_ranges rnd es i :
  unitDraws rnd -> (i < vCount)%nat ->
  vMeta (run es (initScene rnd)) = vMeta (initScene rnd) /\
  8 <= vMeta (run es (initScene rnd)) !!! (i * 2)%nat <= 33 /\
  0.5 <= vMeta (run es (initScene rnd)) !!! (i * 2 + 1)%nat <= 2 /\
  -9 <= vy (slot (vPos (initScene rnd)) i) <= 36.
Proof.
  intros Hr Hi.
  split; [exact (proj2 (run_vortex es (initScene rnd)))|].
  destruct (reachable_vMeta rnd es i Hi) as [-> ->].
  rewrite initScene_vPos.
  destruct (initVortex_particle rnd i Hi) as (-> & _ & _).
  pose proof (Hr (4 * i)%nat). pose proof (Hr (4 * i + 2)%nat).
  pose proof (Hr (4 * i + 3)%nat).
  unfold baseRadius, angularSpeed, initialParticle; cbn [vy].
  repeat split; lra.
Qed.

Lemma zeroDraws_unit : unitDraws zeroDraws.
Proof. intros k. unfold zeroDraws. lra. Qed.

Lemma vCount_pos : (0 < vCount)%nat.
Proof. unfold vCount. lia. Qed.

Lemma vortex_initial_ranges_witness :
  8 <= vMeta (run [Animate 0] (initScene zeroDraws)) !!! (0 * 2)%nat <= 33 /\
  -9 <= vy (slot (vPos (initScene zeroDraws)) 0) <= 36.
Proof.
  pose proof (vortex_initial_ranges zeroDraws [Animate 0] 0%nat
                zeroDraws_unit vCount_pos) as (_ & H1 & _ & H2).
  split; [exact H1 | exact H2].
Defined.

Lemma reachable_vPos_length rnd es :
  length (vPos (run es (initScene rnd))) = (vCount * 3)%nat.
Proof.
  destruct (run_vortex es (initScene rnd)) as [-> _]. apply initScene_vPos_length.
Qed.

(** ** The detection loop *)

(** X6.  The detection loop raises exactly when a hand comes with fewer than
    ten landmarks (the palm centre is landmark 9), and then the scene is
    left as it was. *)
Theorem detectLoop_raises_on_short_hand result s :
  (detectLoop result s = None <->
   exists landmarks, result = Hand landmarks /\ (length landmarks < 10)%nat) /\
  (detectLoop result s = None -> step s (Detect result) = s).
Proof.
  split.
  - split.
    + intros H. destruct result as [| |lm]; try discriminate H.
      exists lm. split; [reflexivity|].
      destruct (lm !! 9%nat) as [palm|] eqn:E9.
      * exfalso.
        destruct (lookup_lt_is_Some_2 lm 4) as [thumb E4];
          [apply lookup_lt_Some in E9; lia|].
        destruct (lookup_lt_is_Some_2 lm 8) as [index E8];
          [apply lookup_lt_Some in E9; lia|].
        unfold detectLoop in H. rewrite E4, E8, E9 in H. discriminate H.
      * apply lookup_ge_None_1 in E9. lia.
    + intros (lm & -> & Hlen).
      assert (E9 : lm !! 9%nat = None) by (apply lookup_ge_None_2; lia).
      unfold detectLoop. rewrite E9.
      destruct (lm !! 4%nat); [|reflexivity].
      destruct (lm !! 8%nat); reflexivity.
  - intros H. cbn [step]. now rewrite H.
Qed.

Lemma detectLoop_raises_on_short_hand_witness :
  step aimedScene (Detect (Hand [mkHandLandmark 0.5 0.5 0])) = aimedScene.
Proof.
  destruct (detectLoop_raises_on_short_hand (Hand [mkHandLandmark 0.5 0.5 0])
              aimedScene) as [H1 H2].
  apply H2, H1. exists [mkHandLandmark 0.5 0.5 0]. split; [reflexivity|].
  simpl. lia.
Defined.

Lemma sqrt_lt_threshold d : 0 <= d -> (sqrt d < 0.055 <-> d < 0.003025).
Proof.
  intros Hd. replace 0.055 with (sqrt 0.003025).
  - split; intros H.
    + apply sqrt_lt_0_alt. exact H.
    + apply sqrt_lt_1_alt. lra.
  - replace 0.003025 with (0.055 * 0.055) by lra. apply sqrt_square. lra.
Qed.

(** X7.  A hand with its landmarks 4, 8 and 9 present always reaches the scene,
    as one report of the palm centre (landmark 9); the pinch flag it
    latches is set exactly when the squared distance in the image plane
    between thumb tip (4) and index tip (8) is below 0.055^2 = 0.003025,
    whatever the depth coordinates are. *)
Theorem pinch_is_squared_distance_test landmarks thumb index palm s :
  landmarks !! 4%nat = Some thumb ->
  landmarks !! 8%nat = Some index ->
  landmarks !! 9%nat = Some palm ->
  exists isPinching,
    detectLoop (Hand landmarks) s
      = Some (updateHandInteraction (lx palm) (ly palm) isPinching s) /\
    (isPinching = true <->
     (lx thumb - lx index) ^ 2 + (ly thumb - ly index) ^ 2 < 0.003025).
Proof.
  intros E4 E8 E9. unfold detectLoop. rewrite E4, E8, E9.
  cbn [mbind option_bind].
  set (d := (lx thumb - lx index) ^ 2 + (ly thumb - ly index) ^ 2).
  assert (Hd : 0 <= d)
    by (unfold d; apply Rplus_le_le_0_compat; apply pow2_ge_0).
  destruct (Rlt_dec (sqrt d) 0.055) as [Hlt|Hge]; eexists; split; try reflexivity.
  - split; [intros _|reflexivity]. now apply sqrt_lt_threshold.
  - split; [discriminate|]. intros H. exfalso. apply Hge.
    now apply sqrt_lt_threshold.
Qed.

Lemma pinch_is_squared_distance_test_witness :
  exists isPinching,
    detectLoop (Hand (handWith 0.5 0.5 0.53 0.54 0.4 0.6)) aimedScene
      = Some (updateHandInteraction 0.4 0.6 isPinching aimedScene) /\
    (isPinching = true <-> (0.5 - 0.53) ^ 2 + (0.5 - 0.54) ^ 2 < 0.003025).
Proof.
  apply (pinch_is_squared_distance_test (handWith 0.5 0.5 0.53 0.54 0.4 0.6)
           (mkHandLandmark 0.5 0.5 0) (mkHandLandmark 0.53 0.54 0)
           (mkHandLandmark 0.4 0.6 0) aimedScene); reflexivity.
Defined.

(** X8.  The service reports a hand only when its landmarker exists, its video
    is set and ready ([readyState >= 2]) and the model found at least one
    hand, and then it passes on the first hand only.  While one of the
    three conditions fails a detection tick leaves the scene alone; that
    is so for good after an initialisation that failed. *)
Theorem detect_needs_ready_service svc readyState landmarks :
  (forall hand, detect svc readyState landmarks = Hand hand ->
     hasLandmarker svc = true /\ hasVideo svc = true /\ (2 <= readyState)%nat /\
     exists others, landmarks = Some (hand :: others)) /\
  (hasLandmarker svc = false \/ hasVideo svc = false \/ (readyState < 2)%nat ->
   forall s, step s (Detect (detect svc readyState landmarks)) = s) /\
  (forall s, step s (Detect (detect (initialize false newService)
                                    readyState landmarks)) = s).
Proof.
  unfold detect. split; [|split].
  - intros hand H.
    destruct (hasLandmarker svc), (hasVideo svc); try discriminate H.
    destruct (readyState <? 2)%nat eqn:E; try discriminate H.
    apply Nat.ltb_ge in E.
    destruct landmarks as [[|h others]|]; try discriminate H.
    injection H as ->. repeat split; try assumption. eauto.
  - intros [H | [H | H]] s.
    + now rewrite H.
    + rewrite H. now destruct (hasLandmarker svc).
    + apply Nat.ltb_lt in H. rewrite H.
      now destruct (hasLandmarker svc), (hasVideo svc).
  - intros s. reflexivity.
Qed.

Lemma detect_needs_ready_service_witness :
  (hasLandmarker (initialize true newService) = true /\
   exists others, Some [centredHand; centredHand] = Some (centredHand :: others)) /\
  step aimedScene
       (Detect (detect (initialize true newService) 1 (Some [centredHand])))
    = aimedScene.
Proof.
  split.
  - destruct (detect_needs_ready_service (initialize true newService) 4
                (Some [centredHand; centredHand])) as (H & _ & _).
    destruct (H centredHand) as (H1 & _ & _ & H4); [reflexivity|]. now split.
  - destruct (detect_needs_ready_service (initialize true newService) 1
                (Some [centredHand])) as (_ & H & _).
    apply H. right. right. lia.
Defined.

(** ** Hand reports with normalised coordinates *)

Lemma step_normalized_cases s e :
  normalized e ->
  (exists time, e = Animate time) \/
  step s e = s \/
  (exists x y p, (0 <= x <= 1 /\ 0 <= y <= 1) /\
                 step s e = updateHandInteraction x y p s) \/
  (exists ms, step s e = setMemories ms s).
Proof.
  intros Hn. destruct e as [time|x y p|r|url|[tex now u1 u2 u3|]].
  - left. eauto.
  - right. right. left. exists x, y, p. now split.
  - destruct r as [| |lm]; [right; left; reflexivity | right; left; reflexivity |].
    cbn [step]. destruct (detectLoop (Hand lm) s) as [s'|] eqn:E;
      [|right; left; reflexivity].
    apply detectLoop_hand in E as (palm & p & E9 & ->).
    cbn [normalized] in Hn. rewrite E9 in Hn.
    right. right. left. exists (lx palm), (ly palm), p. now split.
  - right. left. reflexivity.
  - right. right. right. eexists. reflexivity.
  - right. left. reflexivity.
Qed.

Lemma lerp_inBox a b : inBox a -> inBox b -> inBox (Vec.lerp a b 0.12).
Proof.
  unfold inBox, Vec.lerp; cbn [vx vy vz].
  intros (? & ? & ?) (? & ? & ?). repeat split; lra.
Qed.

Lemma step_handBounded s e : normalized e -> handBounded s -> handBounded (step s e).
Proof.
  intros Hn (Ht & Hc & Hlen & Hs & Hrx & Hry).
  destruct (step_normalized_cases s e Hn)
    as [(time & ->) | [E | [(x & y & p & (Hx & Hy) & E) | (ms & E)]]].
  - change (step s (Animate time)) with (animate time s).
    assert (Hc' : inBox (currentHandPos (animate time s)))
      by (cbn [animate currentHandPos]; now apply lerp_inBox).
    split; [exact Ht|]. split; [exact Hc'|].
    rewrite animate_tArray.
    split; [now rewrite trailPush_length|]. split; [|now split].
    intros i Hi. rewrite slot_trailPush by assumption.
    case_decide; [exact Hc'|]. apply Hs. lia.
  - rewrite E. exact (conj Ht (conj Hc (conj Hlen (conj Hs (conj Hrx Hry))))).
  - rewrite E. unfold handBounded.
    cbn [updateHandInteraction targetHandPos currentHandPos tArray rotationX rotationY].
    split; [unfold inBox; cbn [vx vy vz]; lra|].
    split; [exact Hc|]. split; [exact Hlen|]. split; [exact Hs|].
    split; lra.
  - rewrite E. exact (conj Ht (conj Hc (conj Hlen (conj Hs (conj Hrx Hry))))).
Qed.

Lemma initScene_handBounded rnd : handBounded (initScene rnd).
Proof.
  destruct (initScene_atOrigin rnd) as (Ht & Hc & Hlen & Hs).
  assert (Hz : inBox Vec.zero) by (unfold inBox, Vec.zero; cbn [vx vy vz]; lra).
  destruct (initScene_fields rnd) as (_ & _ & _ & _ & Hrx & Hry & _).
  unfold handBounded. rewrite Ht, Hc, Hrx, Hry.
  split; [exact Hz|]. split; [exact Hz|]. split; [exact Hlen|].
  split; [|lra]. intros i Hi. now rewrite Hs.
Qed.

(** X9.  If every hand report carries palm coordinates in [0,1], then in every
    scene reached from the initial one the target, the smoothed position
    and all 60 points of the trail lie in the box
    [-30,30] x [-22.5,22.5] x [0,15], and the two rotations of the main
    group stay within 0.125 and 0.25 rad of zero. *)
Theorem normalised_reports_keep_hand_in_box rnd es :
  Forall normalized es ->
  let s := run es (initScene rnd) in
  inBox (targetHandPos s) /\
  inBox (currentHandPos s) /\
  (forall i, (i < tCount)%nat -> inBox (slot (tArray s) i)) /\
  -0.125 <= rotationX s <= 0.125 /\
  -0.25 <= rotationY s <= 0.25.
Proof.
  intros H; cbv zeta.
  assert (Hb : handBounded (run es (initScene rnd))).
  { pose proof (initScene_handBounded rnd) as H0. revert H0.
    generalize (initScene rnd).
    induction H as [|e es He Hes IH]; intros s Hs; [exact Hs|].
    rewrite run_cons. apply IH. now apply step_handBounded. }
  destruct Hb as (Ht & Hc & _ & Hs & Hrx & Hry). auto.
Qed.

Lemma normalised_reports_keep_hand_in_box_witness :
  inBox (currentHandPos
           (run [UpdateHandInteraction 1 0 true; Animate 1;
                 Detect (Hand centredHand); Animate 2]
                (initScene zeroDraws))).
Proof.
  assert (H : Forall normalized
                [UpdateHandInteraction 1 0 true; Animate 1;
                 Detect (Hand centredHand); Animate 2]).
  { repeat constructor; cbn; lra. }
  pose proof (normalised_reports_keep_hand_in_box zeroDraws _ H) as Hb.
  cbv zeta in Hb. exact (proj1 (proj2 Hb)).
Defined.

(** ** Easing between reports and frames *)

Lemma reports_cons_handless e es :
  handless e = true -> reports (e :: es) = reports es.
Proof. destruct e as [| | [| |]| |]; try discriminate; reflexivity. Qed.

(** X10.  With every direct report at the same palm position [(x, y)], and no
    detection with a hand in between, each report closes 4% of the gap
    between each rotation and its target, and nothing else touches the
    rotations: after [n] reports the gaps are [0.96 ^ n] of what they
    were, however many frames went by. *)
Theorem rotation_eases_per_report x y es : forall s,
  Forall (reportsOnly x y) es ->
  rotationX (run es s) - (y - 0.5) * 0.25
    = 0.96 ^ reports es * (rotationX s - (y - 0.5) * 0.25) /\
  rotationY (run es s) - (x - 0.5) * 0.5
    = 0.96 ^ reports es * (rotationY s - (x - 0.5) * 0.5).
Proof.
  induction es as [|e es IH]; intros s H.
  - cbn [run fold_left reports pow]. split; lra.
  - inversion H as [|e' es' He Hes]; subst.
    rewrite run_cons. destruct (IH (step s e) Hes) as [-> ->].
    destruct He as [He | (p & ->)].
    + rewrite (reports_cons_handless e es He).
      destruct (step_handless s e He) as [(time & ->) | (_ & ms & ->)];
        split; reflexivity.
    + cbn [step updateHandInteraction rotationX rotationY reports pow].
      split; generalize (0.96 ^ reports es); intros k; nra.
Qed.

Lemma rotation_eases_per_report_witness :
  rotationX (run [UpdateHandInteraction 0.2 0.9 false; Animate 1;
                  UpdateHandInteraction 0.2 0.9 true] aimedScene)
    - (0.9 - 0.5) * 0.25
  = 0.96 ^ 2 * (rotationX aimedScene - (0.9 - 0.5) * 0.25).
Proof.
  refine (proj1 (rotation_eases_per_report 0.2 0.9
                   [UpdateHandInteraction 0.2 0.9 false; Animate 1;
                    UpdateHandInteraction 0.2 0.9 true] aimedScene _)).
  constructor; [right; eexists; reflexivity|].
  constructor; [left; reflexivity|].
  constructor; [right; eexists; reflexivity|].
  constructor.
Defined.

(** X11.  While no hand report arrives the latched pinch signal does not change
    and each frame closes 10% of the gap between the pinch factor and its
    target (1 when latched, 0 when released): after a release the factor
    is [0.9 ^ n] of what it was, [n] frames later. *)
Theorem pinch_eases_per_frame es : forall s,
  forallb handless es = true ->
  let target := if isPinchingRef s then 1 else 0 in
  isPinchingRef (run es s) = isPinchingRef s /\
  pinchFactor (run es s) - target = 0.9 ^ frames es * (pinchFactor s - target).
Proof.
  induction es as [|e es IH]; intros s H; cbv zeta.
  - cbn [run fold_left frames pow]. split; [reflexivity | lra].
  - simpl in H. apply andb_prop in H as [He Hes].
    rewrite run_cons. pose proof (IH (step s e) Hes) as IHe. cbv zeta in IHe.
    destruct (step_handless s e He) as [(time & ->) | (Hf & ms & E)].
    + cbn [step animate isPinchingRef pinchFactor] in IHe.
      cbn [step frames pow]. destruct IHe as [-> IHp].
      split; [reflexivity|].
      generalize dependent (0.9 ^ frames es). intros k IHp.
      destruct (isPinchingRef s); nra.
    + rewrite Hf. rewrite E in IHe |- *.
      cbn [setMemories isPinchingRef pinchFactor] in IHe. exact IHe.
Qed.

Lemma pinch_eases_per_frame_witness :
  pinchFactor (run [Animate 1; AddMemory 1; Animate 2] aimedScene) - 0
    = 0.9 ^ 2 * (pinchFactor aimedScene - 0).
Proof.
  refine (proj2 (pinch_eases_per_frame [Animate 1; AddMemory 1; Animate 2]
                   aimedScene _)).
  reflexivity.
Defined.

(** ** The life of an artifact *)

Lemma lookup_map {A B} (f : A -> B) (l : list A) (i : nat) :
  List.map f l !! i = f <$> (l !! i).
Proof.
  revert i. induction l as [|x l IH]; intros [|i]; try reflexivity. apply IH.
Qed.

Lemma Rabs_bound a b : Rabs a <= b -> - b <= a <= b.
Proof. unfold Rabs. destruct (Rcase_abs a); lra. Qed.

Lemma updateMemory_tracks time n g0 g :
  tracks n g0 g -> tracks (S n) g0 (updateMemory time g).
Proof.
  intros (Hm & Hb & Hl & Hlen & Hx & Hz & Hy).
  unfold tracks, updateMemory; cbv zeta;
    cbn [map_ birth lookAtTarget matRefs position vx vy vz].
  repeat split; try assumption.
  - destruct (Rlt_dec _ 1.5); [rewrite length_map|]; exact Hlen.
  - rewrite S_INR. pose proof (SIN_bound (time + vx (position g))) as Hs.
    apply Rabs_le. apply Rabs_bound in Hy. lra.
Qed.

Lemma tracks_refl g : tracks 0 g g.
Proof.
  unfold tracks. repeat split.
  replace (vy (position g) - vy (position g)) with 0 by lra.
  rewrite Rabs_R0. cbn [INR]. lra.
Qed.

Lemma step_tracks s e i n g0 g :
  memories s !! i = Some g -> tracks n g0 g ->
  exists g', memories (step s e) !! i = Some g' /\
             tracks (n + frames [e]) g0 g'.
Proof.
  intros Hi Ht. destruct e as [time|x y p|r|url|[tex now u1 u2 u3|]].
  - exists (updateMemory time g). split.
    + change (step s (Animate time)) with (animate time s).
      rewrite animate_memories, lookup_map, Hi. reflexivity.
    + replace (n + frames [Animate time])%nat with (S n) by (cbn; lia).
      now apply updateMemory_tracks.
  - exists g. rewrite Nat.add_0_r. now split.
  - exists g. rewrite Nat.add_0_r. split; [|exact Ht].
    destruct (step_detect r s) as [-> | (x & y & p & ->)]; exact Hi.
  - exists g. rewrite Nat.add_0_r. now split.
  - exists g. rewrite Nat.add_0_r. split; [|exact Ht].
    cbn [step loadFinished onTextureLoaded setMemories memories].
    now apply lookup_app_l_Some.
  - exists g. rewrite Nat.add_0_r. now split.
Qed.

Lemma run_tracks es : forall s i g,
  memories s !! i = Some g ->
  exists g', memories (run es s) !! i = Some g' /\ tracks (frames es) g g'.
Proof.
  intros s i g Hi.
  apply (run_ind_snoc
           (fun es s' => exists g', memories s' !! i = Some g' /\
                                    tracks (frames es) g g')).
  - exists g. split; [exact Hi | apply tracks_refl].
  - intros es0 e (g' & Hg' & Ht).
    destruct (step_tracks (run es0 s) e i _ g g' Hg' Ht) as (g'' & H1 & H2).
    exists g''. split; [exact H1|]. now rewrite frames_app.
Qed.

Lemma step_memories_count s e :
  length (memories (step s e))
    = (length (memories s) + (if isLoadSuccess e then 1 else 0))%nat.
Proof.
  destruct (isLoadSuccess e) eqn:E.
  - destruct e as [| | | |[tex now u1 u2 u3|]]; try discriminate E.
    cbn [step loadFinished onTextureLoaded setMemories memories].
    rewrite length_app. reflexivity.
  - rewrite step_memories_length by exact E. lia.
Qed.

(** X12.  Artifacts are only ever appended: after any run the scene holds the
    artifacts it held, at the same indices, plus one per successful load;
    and an artifact keeps its photo, birth time, orientation, number of
    materials and horizontal position for good. *)
Theorem artifacts_are_kept es s :
  length (memories (run es s)) = (length (memories s) + loads es)%nat /\
  (forall i g, memories s !! i = Some g ->
     exists g', memories (run es s) !! i = Some g' /\
       map_ g' = map_ g /\ birth g' = birth g /\
       lookAtTarget g' = lookAtTarget g /\
       length (matRefs g') = length (matRefs g) /\
       vx (position g') = vx (position g) /\
       vz (position g') = vz (position g)).
Proof.
  split.
  - revert s. induction es as [|e es IH]; intros s.
    + cbn [run fold_left loads]. lia.
    + rewrite run_cons, IH, step_memories_count. cbn [loads]. lia.
  - intros i g Hi.
    destruct (run_tracks es s i g Hi) as (g' & Hg' & (H1 & H2 & H3 & H4 & H5 & H6 & _)).
    exists g'. repeat split; assumption.
Qed.

Lemma artifacts_are_kept_witness :
  exists g',
    memories (run [Animate 16; LoadFinished (LoadSuccess 2%nat 17 0 0 0); Animate 18]
                  (setMemories [freshMemory] aimedScene)) !! 0%nat = Some g' /\
    map_ g' = map_ freshMemory /\ birth g' = birth freshMemory /\
    lookAtTarget g' = lookAtTarget freshMemory /\
    length (matRefs g') = length (matRefs freshMemory) /\
    vx (position g') = vx (position freshMemory) /\
    vz (position g') = vz (position freshMemory).
Proof.
  refine (proj2 (artifacts_are_kept
                   [Animate 16; LoadFinished (LoadSuccess 2%nat 17 0 0 0); Animate 18]
                   (setMemories [freshMemory] aimedScene)) 0%nat freshMemory _).
  reflexivity.
Defined.

(** X13.  Only frames move an artifact, and a frame moves it vertically by at
    most 0.015: over any run its height changes by at most 0.015 times the
    number of frames. *)
Theorem artifact_height_drift es s i g g' :
  memories s !! i = Some g ->
  memories (run es s) !! i = Some g' ->
  Rabs (vy (position g') - vy (position g)) <= 0.015 * INR (frames es).
Proof.
  intros Hi Hi'.
  destruct (run_tracks es s i g Hi) as (g'' & Hg'' & Ht).
  rewrite Hi' in Hg''. injection Hg'' as <-. apply Ht.
Qed.

Lemma artifact_height_drift_witness :
  Rabs (vy (position (updateMemory 16 freshMemory)) - vy (position freshMemory))
    <= 0.015 * INR (frames [Animate 16]).
Proof.
  apply (artifact_height_drift [Animate 16] (setMemories [freshMemory] aimedScene)
           0%nat freshMemory (updateMemory 16 freshMemory)); reflexivity.
Defined.

Lemma newMemoryGroup_fading texture now u1 u2 u3 :
  fading now (newMemoryGroup texture now u1 u2 u3).
Proof.
  unfold fading; cbn [newMemoryGroup matRefs birth].
  repeat constructor; lra.
Qed.

(** X14.  The part of the fade that the code keeps: an artifact is born inside
    the fade envelope (opacity between 0 and [age / 1.5], short of 1), and
    a frame whose clock reading is not earlier than the previous one keeps
    it inside and lowers none of its opacities. *)
Theorem fade_never_decreases :
  (forall texture now u1 u2 u3, fading now (newMemoryGroup texture now u1 u2 u3)) /\
  (forall t t' g,
     fading t g -> t <= t' ->
     fading t' (updateMemory t' g) /\
     Forall2 Rle (matRefs g) (matRefs (updateMemory t' g))).
Proof.
  split; [apply newMemoryGroup_fading|].
  intros t t' g H Ht. unfold fading in *. rewrite updateMemory_birth.
  destruct (Rlt_dec (t' - birth g) 1.5) as [Hlt|Hge].
  - rewrite updateMemory_fading by assumption.
    induction H as [|o l ((Ho1 & Ho2) & Ho3) Hl [IH1 IH2]]; cbn [List.map].
    + split; constructor.
    + split; constructor; try assumption; lra.
  - rewrite updateMemory_faded by lra.
    induction H as [|o l ((Ho1 & Ho2) & Ho3) Hl [IH1 IH2]].
    + split; constructor.
    + split; constructor; try assumption; lra.
Qed.

Lemma fade_never_decreases_witness :
  fading 16 (updateMemory 16 freshMemory) /\
  Forall2 Rle (matRefs freshMemory) (matRefs (updateMemory 16 freshMemory)).
Proof.
  destruct fade_never_decreases as [H1 H2].
  apply (H2 15 16 freshMemory); [|lra].
  apply (H1 1%nat 15 (1 / 2) 0 (1 / 6)).
Defined.

Lemma updateMemory_two_materials time g o :
  matRefs g = [o; o] -> exists o', matRefs (updateMemory time g) = [o'; o'].
Proof.
  intros H. destruct (Rlt_dec (time - birth g) 1.5) as [Hlt|Hge].
  - rewrite updateMemory_fading, H by assumption. eexists. reflexivity.
  - rewrite updateMemory_faded, H by lra. eexists. reflexivity.
Qed.

(** X15.  In every scene reached from the initial one each artifact has exactly
    two materials, the photo and its border, and the two have the same
    opacity. *)
Theorem photo_and_border_fade_together rnd es g :
  In g (memories (run es (initScene rnd))) ->
  exists o, matRefs g = [o; o].
Proof.
  revert g.
  apply (run_invariant
           (fun s => forall g, In g (memories s) -> exists o, matRefs g = [o; o])).
  - intros s e Hs g Hg.
    destruct e as [time|x y p|r|url|[tex now u1 u2 u3|]].
    + change (step s (Animate time)) with (animate time s) in Hg.
      rewrite animate_memories in Hg.
      apply in_map_iff in Hg as (g0 & <- & Hg0).
      destruct (Hs g0 Hg0) as [o Ho]. exact (updateMemory_two_materials time g0 o Ho).
    + exact (Hs g Hg).
    + destruct (step_detect r s) as [E | (x & y & p & E)];
        rewrite E in Hg; exact (Hs g Hg).
    + exact (Hs g Hg).
    + cbn [step loadFinished onTextureLoaded setMemories memories] in Hg.
      apply in_app_or in Hg as [Hg | [<- | []]]; [exact (Hs g Hg)|].
      exists 0. reflexivity.
    + exact (Hs g Hg).
  - intros g [].
Qed.

Lemma photo_and_border_fade_together_witness :
  exists o,
    matRefs (updateMemory 16 (newMemoryGroup 1%nat 15 (1 / 2) 0 (1 / 6))) = [o; o].
Proof.
  apply (photo_and_border_fade_together zeroDraws
           [LoadFinished (LoadSuccess 1%nat 15 (1 / 2) 0 (1 / 6)); Animate 16]).
  left. reflexivity.
Defined.

(** ** The trail, for any number of frames *)

(** X16.  After any number of pushes, slot [j] of the trail holds the position
    pushed [j] frames ago if there is one, and otherwise what slot
    [j - n] held before the [n] pushes: old content moves down one slot
    per frame and is lost once it passes slot 59. *)
Theorem trail_after_pushes ps : forall a j,
  length a = (tCount * 3)%nat -> (j < tCount)%nat ->
  slot (feed ps a) j
    = match reverse ps !! j with
      | Some p => p
      | None => slot a (j - length ps)
      end.
Proof.
  induction ps as [|p ps IH] using rev_ind; intros a j Hlen Hj.
  - destruct j; reflexivity.
  - rewrite reverse_snoc, feed_snoc.
    rewrite slot_trailPush by (rewrite ?feed_length; assumption).
    case_decide as H0.
    + subst j. reflexivity.
    + destruct j as [|j']; [congruence|]. cbn [lookup list_lookup].
      replace (S j' - 1)%nat with j' by lia.
      rewrite IH by (assumption || lia).
      rewrite length_app. cbn [length].
      replace (S j' - (length ps + 1))%nat with (j' - length ps)%nat by lia.
      reflexivity.
Qed.

Lemma trail_after_pushes_witness :
  slot (feed [mkVector3 1 2 3; mkVector3 4 5 6] (tArray aimedScene)) 1
    = mkVector3 1 2 3 /\
  slot (feed [mkVector3 1 2 3; mkVector3 4 5 6] (tArray aimedScene)) 5
    = slot (tArray aimedScene) 3.
Proof.
  split.
  - apply (trail_after_pushes [mkVector3 1 2 3; mkVector3 4 5 6]
             (tArray aimedScene) 1%nat); [reflexivity | unfold tCount; lia].
  - apply (trail_after_pushes [mkVector3 1 2 3; mkVector3 4 5 6]
             (tArray aimedScene) 5%nat); [reflexivity | unfold tCount; lia].
Defined.

(** ** What the vortex forgets *)

(** X17.  The horizontal position of a particle after a frame depends only on
    the clock reading and the pinch factor of that frame: two histories
    from the same initialisation that arrive at the same pinch factor put
    every particle at the same [x] and [z], whatever happened before
    (only the height carries history). *)
Theorem vortex_horizontal_forgets_history rnd es1 es2 time i :
  (i < vCount)%nat ->
  pinchFactor (animate time (run es1 (initScene rnd)))
    = pinchFactor (animate time (run es2 (initScene rnd))) ->
  vx (slot (vPos (animate time (run es1 (initScene rnd)))) i)
    = vx (slot (vPos (animate time (run es2 (initScene rnd)))) i) /\
  vz (slot (vPos (animate time (run es1 (initScene rnd)))) i)
    = vz (slot (vPos (animate time (run es2 (initScene rnd)))) i).
Proof.
  intros Hi Hp.
  destruct (animate_vortex time (run es1 (initScene rnd))) as (-> & _ & _).
  destruct (animate_vortex time (run es2 (initScene rnd))) as (-> & _ & _).
  rewrite !slot_vortexLoop by (try apply reachable_vPos_length; assumption).
  unfold particle; cbv zeta; cbn [vx vz].
  destruct (reachable_vMeta rnd es1 i Hi) as [-> ->].
  destruct (reachable_vMeta rnd es2 i Hi) as [-> ->].
  rewrite Hp. now split.
Qed.

Lemma vortex_horizontal_forgets_history_witness :
  vx (slot (vPos (animate 3 (run [Animate 1; AddMemory 1] (initScene zeroDraws)))) 0)
    = vx (slot (vPos (animate 3 (run [Animate 2] (initScene zeroDraws)))) 0).
Proof.
  refine (proj1 (vortex_horizontal_forgets_history zeroDraws
                   [Animate 1; AddMemory 1] [Animate 2] 3 0%nat vCount_pos _)).
  cbn [run fold_left step animate pinchFactor initScene isPinchingRef]. reflexivity.
Defined.
